(** * dingo-serial: the record decoder (src/serial/record/record_decoder.cc)

    A shallow embedding of [RecordDecoderV1] and of the free functions of
    record_decoder.cc, together with the properties of the decoder that
    the specification states.

    The decoder is written against two collaborators whose code lives in
    other translation units: the byte cursor [Buf] and the per-column
    schema objects ([BaseSchema] / [DingoSchema<T>]).  They are taken as
    interfaces (type classes); every theorem of the generic part holds for
    all their implementations.  A small reference implementation at the
    end of the file instantiates the interfaces for concrete runs. *)

From Stdlib Require Import ZArith Lia Strings.Byte.
From stdpp Require Import list sorting.

Set Default Proof Using "Type".

(** ** Outcomes of a C++ call and the state monad of a function body *)

(** What a C++ exception carries is irrelevant here; [out_of_range] is the
    one thrown by [std::vector::at]. *)
Inductive exception : Type :=
  | out_of_range
  | other_exception (what : nat).

(** A call either returns a value or leaves by an exception. *)
Inductive outcome (A : Type) : Type :=
  | Ok (a : A)
  | Throw (e : exception).
Arguments Ok {A} a.
Arguments Throw {A} e.

(** A computation over the mutable objects [S] it can reach.  The state is
    returned on both exits: what was written before a [throw] stays
    written (the output record belongs to the caller). *)
Definition M (S A : Type) : Type := S -> outcome A * S.

Definition ret {S A} (a : A) : M S A := fun s => (Ok a, s).

Definition throw {S A} (e : exception) : M S A := fun s => (Throw e, s).

Definition bind {S A B} (c : M S A) (k : A -> M S B) : M S B :=
  fun s => match c s with
           | (Ok a, s') => k a s'
           | (Throw e, s') => (Throw e, s')
           end.

Notation "'let*' x ':=' c 'in' k" := (bind c (fun x => k))
  (at level 10, x pattern, c at level 100, k at level 200).
Notation "c ';;;' k" := (bind c (fun _ => k))
  (at level 100, k at level 200, right associativity).

(** A C++ reference to an object of type [A] living in the state [S].
    Passing the same reference for two parameters is aliasing. *)
Record ref (S A : Type) : Type := Ref { rd : S -> A; wr : A -> S -> S }.
Arguments Ref {S A} rd wr.
Arguments rd {S A} r s.
Arguments wr {S A} r a s.

(** Run a member function of the object behind a reference. *)
Definition on {S A B} (r : ref S A) (op : A -> outcome B * A) : M S B :=
  fun s => let (b, a') := op (rd r s) in (b, wr r a' s).

(** Read through a reference with a [const] member function. *)
Definition peek {S A B} (r : ref S A) (f : A -> B) : M S B :=
  fun s => (Ok (f (rd r s)), s).

(** Range-based [for] over a container whose body cannot [return]. *)
Fixpoint for_each {S A} (l : list A) (body : A -> M S unit) : M S unit :=
  match l with
  | [] => ret tt
  | x :: rest => body x ;;; for_each rest body
  end.

(** ** The physical column types *)

(** The twelve instantiations of [CastAndDecodeOrSkip<T>], in the order of
    the dispatch table (lines 58-71). *)
Inductive Type_ : Type :=
  | kBool | kInteger | kFloat | kLong | kDouble | kString
  | kBoolList | kIntegerList | kFloatList | kLongList | kDoubleList
  | kStringList.

(** [static_cast<int>(schema->GetType())] *)
Definition ordinal (t : Type_) : nat :=
  match t with
  | kBool => 0 | kInteger => 1 | kFloat => 2 | kLong => 3 | kDouble => 4
  | kString => 5 | kBoolList => 6 | kIntegerList => 7 | kFloatList => 8
  | kLongList => 9 | kDoubleList => 10 | kStringList => 11
  end.

Global Instance Type__eq_dec : EqDecision Type_.
Proof. solve_decision. Defined.

(** ** The collaborators, as interfaces *)

(** The byte cursor.  Every member function that moves the cursor may
    throw (a read past the available bytes); [IsEnd] is a [const]
    predicate. *)
Class BufOps (Buf : Type) : Type := {
  Buf_new : list byte -> bool -> Buf;          (* Buf(const std::string&, bool le) *)
  Skip : Z -> Buf -> outcome unit * Buf;
  ReadInt : Buf -> outcome Z * Buf;
  ReadLong : Buf -> outcome Z * Buf;
  ReverseRead : Buf -> outcome Z * Buf;
  ReverseSkip : Z -> Buf -> outcome unit * Buf;
  IsEnd : Buf -> bool
}.

(** The schema of one column.  [V] is the type of decoded payloads; a
    decoded column is a [std::optional<T>], here [option V]. *)
Class SchemaOps (Buf V BaseSchema : Type) : Type := {
  GetType : BaseSchema -> Type_;
  IsKey : BaseSchema -> bool;
  GetIndex : BaseSchema -> Z;
  DecodeKey : BaseSchema -> Buf -> outcome (option V) * Buf;
  DecodeValue : BaseSchema -> Buf -> outcome (option V) * Buf;
  SkipKey : BaseSchema -> Buf -> outcome unit * Buf;
  SkipValue : BaseSchema -> Buf -> outcome unit * Buf
}.

(** ** The output record *)

(** One [std::any] of the output vector: default-constructed (empty), or
    holding a [std::optional<T>]. *)
Inductive Any (V : Type) : Type :=
  | any_empty
  | any_optional (T : Type_) (o : option V).
Arguments any_empty {V}.
Arguments any_optional {V} T o.

(** The explicit absent marker written for a missing value column:
    [std::optional<T>(std::nullopt)]. *)
Definition absent {V} (T : Type_) : Any V := any_optional T None.

Section Decoder.
Context {Buf V BaseSchema : Type}.
Context `{!BufOps Buf} `{!SchemaOps Buf V BaseSchema}.

(** [record.at(record_index) = v] with an [int] index: the index is
    converted to [size_t], so a negative one is out of range too. *)
Definition at_assign {S} (record : ref S (list (Any V))) (record_index : Z)
    (v : Any V) : M S unit :=
  fun s =>
    if decide (0 <= record_index < Z.of_nat (length (rd record s)))%Z
    then (Ok tt, wr record (<[Z.to_nat record_index := v]> (rd record s)) s)
    else (Throw out_of_range, s).

(** [record.resize(n)] *)
Definition resize_record {S} (record : ref S (list (Any V))) (n : nat)
    : M S unit :=
  fun s => (Ok tt, wr record (resize n any_empty (rd record s)) s).

(** [CastAndDecodeOrSkip<T>] (lines 32-56).  In
    [record.at(i) = schema->Decode...(&buf)] the right operand is
    evaluated first. *)
Definition CastAndDecodeOrSkip {S} (T : Type_) (schema : BaseSchema)
    (key_buf value_buf : ref S Buf) (record : ref S (list (Any V)))
    (record_index : Z) (skip : bool) : M S unit :=
  if skip then
    if IsKey schema then on key_buf (SkipKey schema)
    else
      let* at_end := peek value_buf IsEnd in
      if negb at_end then on value_buf (SkipValue schema) else ret tt
  else
    if IsKey schema then
      let* v := on key_buf (DecodeKey schema) in
      at_assign record record_index (any_optional T v)
    else
      let* at_end := peek value_buf IsEnd in
      if at_end then at_assign record record_index (absent T)
      else
        let* v := on value_buf (DecodeValue schema) in
        at_assign record record_index (any_optional T v).

(** [cast_and_decode_or_skip_func_ptrs] (lines 58-71) *)
Definition cast_and_decode_or_skip_func_ptrs {S}
  : list (BaseSchema -> ref S Buf -> ref S Buf -> ref S (list (Any V)) ->
          Z -> bool -> M S unit) :=
  [ CastAndDecodeOrSkip kBool; CastAndDecodeOrSkip kInteger;
    CastAndDecodeOrSkip kFloat; CastAndDecodeOrSkip kLong;
    CastAndDecodeOrSkip kDouble; CastAndDecodeOrSkip kString;
    CastAndDecodeOrSkip kBoolList; CastAndDecodeOrSkip kIntegerList;
    CastAndDecodeOrSkip kFloatList; CastAndDecodeOrSkip kLongList;
    CastAndDecodeOrSkip kDoubleList; CastAndDecodeOrSkip kStringList ].

(** [DecodeOrSkip] (lines 119-124): an unchecked index into the table.
    [ordinal] is below 12, so the default of [nth] is never read. *)
Definition DecodeOrSkip {S} (schema : BaseSchema)
    (key_buf value_buf : ref S Buf) (record : ref S (list (Any V)))
    (record_index : Z) (skip : bool) : M S unit :=
  nth (ordinal (GetType schema)) cast_and_decode_or_skip_func_ptrs
      (fun _ _ _ _ _ _ => ret tt)
      schema key_buf value_buf record record_index skip.

(** *** The decoder object *)

(** The members of [RecordDecoderV1].  The constructors (lines 73-97) fill
    them in; [codec_version_] is declared with the class in
    record_decoder.h, and [FormatSchema], which [Init] calls on the schema
    list, belongs to the schema collaborator. *)

Record RecordDecoderV1 : Type := {
  le_ : bool;
  schema_version_ : Z;
  schemas_ : list (option BaseSchema);   (* a null shared_ptr is [None] *)
  common_id_ : Z;
  codec_version_ : Z
}.

(** [CheckPrefix] (lines 99-103) *)
Definition CheckPrefix {S} (this : RecordDecoderV1) (buf : ref S Buf)
    : M S bool :=
  on buf (Skip 1) ;;;
  let* id := on buf ReadLong in
  ret (id =? common_id_ this)%Z.

(** [CheckReverseTag] (lines 105-111) *)
Definition CheckReverseTag {S} (this : RecordDecoderV1) (buf : ref S Buf)
    : M S bool :=
  let* tag := on buf ReverseRead in
  if (tag <=? codec_version_ this)%Z
  then on buf (ReverseSkip 3) ;;; ret true
  else ret false.

(** [CheckSchemaVersion] (lines 113-115) *)
Definition CheckSchemaVersion {S} (this : RecordDecoderV1) (buf : ref S Buf)
    : M S bool :=
  let* version := on buf ReadInt in
  ret (version <=? schema_version_ this)%Z.

(** *** Full decode (lines 126-153) *)

(** The objects a call of [Decode] works on: its two cursors and the
    caller's record. *)
Record Locals : Type := {
  key_buf : Buf;
  value_buf : Buf;
  record : list (Any V)
}.

Definition key_buf_ref : ref Locals Buf :=
  Ref key_buf (fun b s => {| key_buf := b; value_buf := value_buf s;
                             record := record s |}).
Definition value_buf_ref : ref Locals Buf :=
  Ref value_buf (fun b s => {| key_buf := key_buf s; value_buf := b;
                               record := record s |}).
Definition record_ref : ref Locals (list (Any V)) :=
  Ref record (fun r s => {| key_buf := key_buf s; value_buf := value_buf s;
                            record := r |}).

(** The loop of lines 146-150. *)
Definition Decode_columns (schemas : list (option BaseSchema))
    : M Locals unit :=
  for_each schemas (fun bs =>
    match bs with
    | Some s =>
        DecodeOrSkip s key_buf_ref value_buf_ref record_ref (GetIndex s) false
    | None => ret tt
    end).

Definition Decode_body (this : RecordDecoderV1) : M Locals Z :=
  let* ok := CheckPrefix this key_buf_ref in
  if negb ok then ret (-1)%Z else
  let* ok := CheckReverseTag this key_buf_ref in
  if negb ok then ret (-1)%Z else
  let* ok := CheckSchemaVersion this value_buf_ref in
  if negb ok then ret (-1)%Z else
  resize_record record_ref (length (schemas_ this)) ;;;
  Decode_columns (schemas_ this) ;;;
  ret 0%Z.

(** [int RecordDecoderV1::Decode(key, value, record)]: the cursors are
    locals of the call, the record is the caller's. *)
Definition Decode (this : RecordDecoderV1) (key value : list byte)
    : M (list (Any V)) Z :=
  fun record0 =>
    let (r, s) := Decode_body this
                    {| key_buf := Buf_new key (le_ this);
                       value_buf := Buf_new value (le_ this);
                       record := record0 |} in
    (r, record s).

(** *** Key-only decode (lines 155-179) *)

(** [DecodeKey] has one cursor; it is passed for both cursor parameters
    of [DecodeOrSkip]. *)
Record KeyLocals : Type := {
  k_key_buf : Buf;
  k_record : list (Any V)
}.

Definition k_key_buf_ref : ref KeyLocals Buf :=
  Ref k_key_buf (fun b s => {| k_key_buf := b; k_record := k_record s |}).
Definition k_record_ref : ref KeyLocals (list (Any V)) :=
  Ref k_record (fun r s => {| k_key_buf := k_key_buf s; k_record := r |}).

(** The loop of lines 171-176, [index] being the local counter. *)
Fixpoint DecodeKey_columns (schemas : list (option BaseSchema)) (index : Z)
    : M KeyLocals unit :=
  match schemas with
  | [] => ret tt
  | bs :: rest =>
      match bs with
      | Some s =>
          if IsKey s
          then DecodeOrSkip s k_key_buf_ref k_key_buf_ref k_record_ref
                            index false
          else ret tt
      | None => ret tt
      end ;;;
      DecodeKey_columns rest (index + 1)%Z
  end.

Definition DecodeKey_body (this : RecordDecoderV1) : M KeyLocals Z :=
  let* ok := CheckPrefix this k_key_buf_ref in
  if negb ok then ret (-1)%Z else
  let* ok := CheckReverseTag this k_key_buf_ref in
  if negb ok then ret (-1)%Z else
  resize_record k_record_ref (length (schemas_ this)) ;;;
  DecodeKey_columns (schemas_ this) 0%Z ;;;
  ret 0%Z.

(** [int RecordDecoderV1::DecodeKey(key, record)] *)
Definition RecordDecoderV1_DecodeKey (this : RecordDecoderV1)
    (key : list byte) : M (list (Any V)) Z :=
  fun record0 =>
    let (r, s) := DecodeKey_body this
                    {| k_key_buf := Buf_new key (le_ this);
                       k_record := record0 |} in
    (r, k_record s).

(** *** Projected decode (lines 186-244) *)

(** [operator<] of [std::pair<int, int>] *)
Definition pair_lt (a b : Z * Z) : Prop :=
  (a.1 < b.1 \/ (~ b.1 < a.1 /\ a.2 < b.2))%Z.

(** What [std::sort] establishes: no element is smaller than one before
    it. *)
Definition pair_le (a b : Z * Z) : Prop := ~ pair_lt b a.

Global Instance pair_le_dec a b : Decision (pair_le a b).
Proof. unfold pair_le, pair_lt. apply _. Defined.

(** Lines 216-225: the pairs (requested position, output slot), sorted. *)
Definition col_index_mapping (column_indexes : list Z) : list (Z * Z) :=
  merge_sort pair_le (imap (fun i c => (c, Z.of_nat i)) column_indexes).

(** [IsSkipOnly] (lines 186-200).  The three reference parameters are
    returned updated.  [indexed_mapping_index[n]] is unchecked; the loop
    calls it only while [n] differs from the size, and [n] stays at most
    the size (see [projected_pass_frame]). *)
Definition IsSkipOnly (indexed_mapping_index : list (Z * Z))
    (n m record_index : Z) : bool * (Z * Z * Z) :=
  let first := (nth (Z.to_nat n) indexed_mapping_index (0, 0)%Z).1 in
  let second := (nth (Z.to_nat n) indexed_mapping_index (0, 0)%Z).2 in
  if (first =? m)%Z
  then (false, ((n + 1)%Z, (m + 1)%Z, second))
  else (true, (n, (m + 1)%Z, record_index)).

(** The loop of lines 234-242.  The result is [Some r] when the loop
    left the function by [return r], [None] when it ran to the end of
    the schema list; the counters come back with it.  The counters [n],
    [m] and [record_index] are C++ [int]s; they count schema slots and
    requests, so they stay far below 2^31 and are kept as unbounded
    integers, as is [(int32_t)column_indexes.size()]. *)
Fixpoint Decode_projected_columns (size : Z) (mapping : list (Z * Z))
    (schemas : list (option BaseSchema)) (n m record_index : Z)
    : M Locals (option Z * (Z * Z * Z)) :=
  match schemas with
  | [] => ret (None, (n, m, record_index))
  | bs :: rest =>
      if (size =? n)%Z then ret (Some 0%Z, (n, m, record_index))
      else
        match bs with
        | Some s =>
            let '(is_skip, (n', m', record_index')) :=
              IsSkipOnly mapping n m record_index in
            DecodeOrSkip s key_buf_ref value_buf_ref record_ref
                         record_index' is_skip ;;;
            Decode_projected_columns size mapping rest n' m' record_index'
        | None =>
            Decode_projected_columns size mapping rest n m record_index
        end
  end.

Definition Decode_projected_body (this : RecordDecoderV1)
    (column_indexes : list Z) : M Locals Z :=
  let* ok := CheckPrefix this key_buf_ref in
  if negb ok then ret (-1)%Z else
  let* ok := CheckReverseTag this key_buf_ref in
  if negb ok then ret (-1)%Z else
  let* ok := CheckSchemaVersion this value_buf_ref in
  if negb ok then ret (-1)%Z else
  resize_record record_ref (length column_indexes) ;;;
  let* r := Decode_projected_columns (Z.of_nat (length column_indexes))
              (col_index_mapping column_indexes) (schemas_ this)
              0%Z 0%Z 0%Z in
  match r.1 with
  | Some status => ret status
  | None => ret 0%Z
  end.

(** [int RecordDecoderV1::Decode(key, value, column_indexes, record)] *)
Definition Decode_projected (this : RecordDecoderV1)
    (key value : list byte) (column_indexes : list Z)
    : M (list (Any V)) Z :=
  fun record0 =>
    let (r, s) := Decode_projected_body this column_indexes
                    {| key_buf := Buf_new key (le_ this);
                       value_buf := Buf_new value (le_ this);
                       record := record0 |} in
    (r, record s).

End Decoder.

(** ** A reference implementation of the collaborators *)

Module Reference.

(** Modelled from the spec: the byte cursor ([Buf], its code is not in
    record_decoder.cc).  Sections 2 and 6 of the specification describe
    it as an endian-aware position over an immutable byte sequence with
    forward reads of primitive widths from the head, reads and skips
    from the tail, an end-of-data predicate, and a hard failure when a
    read runs past the available bytes. *)
Record Buf : Type := {
  bytes : list byte;
  forward_pos : Z;
  reverse_pos : Z;
  le : bool
}.

(** Modelled from the spec: a cursor over a byte sequence starts with its
    forward position on the first byte and its reverse position on the
    last. *)
Definition Buf_new (s : list byte) (le : bool) : Buf :=
  {| bytes := s; forward_pos := 0; reverse_pos := Z.of_nat (length s) - 1;
     le := le |}.

(** Modelled from the spec: the byte at a position; there is none outside
    the sequence (section 7, malformed bytes). *)
Definition byte_at (b : Buf) (pos : Z) : option Z :=
  if decide (0 <= pos)%Z
  then (fun x => Z.of_N (Byte.to_N x)) <$> bytes b !! Z.to_nat pos
  else None.

(** Modelled from the spec: [readByte], forward from the head. *)
Definition Read (b : Buf) : outcome Z * Buf :=
  match byte_at b (forward_pos b) with
  | Some x => (Ok x, {| bytes := bytes b; forward_pos := forward_pos b + 1;
                        reverse_pos := reverse_pos b; le := le b |})
  | None => (Throw out_of_range, b)
  end.

(** Modelled from the spec: [reverseReadByte], from the tail. *)
Definition ReverseRead (b : Buf) : outcome Z * Buf :=
  match byte_at b (reverse_pos b) with
  | Some x => (Ok x, {| bytes := bytes b; forward_pos := forward_pos b;
                        reverse_pos := reverse_pos b - 1; le := le b |})
  | None => (Throw out_of_range, b)
  end.

(** Modelled from the spec: [skip(n)] moves the forward position. *)
Definition Skip (size : Z) (b : Buf) : outcome unit * Buf :=
  (Ok tt, {| bytes := bytes b; forward_pos := forward_pos b + size;
             reverse_pos := reverse_pos b; le := le b |}).

(** Modelled from the spec: [reverseSkip(n)] moves the reverse position. *)
Definition ReverseSkip (size : Z) (b : Buf) : outcome unit * Buf :=
  (Ok tt, {| bytes := bytes b; forward_pos := forward_pos b;
             reverse_pos := reverse_pos b - size; le := le b |}).

(** Modelled from the spec: [isAtEnd], no byte is left between the two
    positions. *)
Definition IsEnd (b : Buf) : bool :=
  bool_decide (reverse_pos b - forward_pos b + 1 <= 0)%Z.

(** Modelled from the spec: [k] bytes read forward, in the order they are
    stored. *)
Fixpoint read_bytes (k : nat) (b : Buf) : outcome (list Z) * Buf :=
  match k with
  | O => (Ok [], b)
  | S k' =>
      match Read b with
      | (Ok x, b') =>
          match read_bytes k' b' with
          | (Ok xs, b'') => (Ok (x :: xs), b'')
          | (Throw e, b'') => (Throw e, b'')
          end
      | (Throw e, b') => (Throw e, b')
      end
  end.

(** The unsigned number a byte list denotes, most significant first. *)
Definition be_value (xs : list Z) : Z :=
  fold_left (fun acc x => Z.lor (Z.shiftl acc 8) x) xs 0%Z.

(** Two's complement reading of a [w]-bit pattern. *)
Definition to_signed (w : Z) (x : Z) : Z :=
  let y := (x mod 2 ^ w)%Z in
  if (y <? 2 ^ (w - 1))%Z then y else (y - 2 ^ w)%Z.

(** Modelled from the spec: an endian-aware read of a [k]-byte integer,
    stored least significant byte first when the cursor is little-endian. *)
Definition read_integer (k : nat) (b : Buf) : outcome Z * Buf :=
  match read_bytes k b with
  | (Ok xs, b') =>
      (Ok (to_signed (8 * Z.of_nat k)
             (be_value (if le b then rev xs else xs))), b')
  | (Throw e, b') => (Throw e, b')
  end.

(** Modelled from the spec: [readInt] and [readLong]. *)
Definition ReadInt : Buf -> outcome Z * Buf := read_integer 4.
Definition ReadLong : Buf -> outcome Z * Buf := read_integer 8.

Global Instance Buf_ops : BufOps Buf :=
  Build_BufOps Buf Buf_new Skip ReadInt ReadLong ReverseRead ReverseSkip
               IsEnd.

(** Modelled from the spec: a column schema ([BaseSchema] and
    [DingoSchema<T>], whose code is not in record_decoder.cc).  Section 3
    gives a column its physical type, its key/value flag and its output
    index; section 6 gives it decode and skip on a cursor.  The byte
    layout is the collaborator's own; this one stores a presence byte,
    then the payload: one byte for [bool], 4 for [int32]/[float], 8 for
    [int64]/[double], a length byte and that many bytes otherwise.
    Skipping advances the cursor as decoding does. *)
Record BaseSchema : Type := {
  type_ : Type_;
  is_key : bool;
  index : Z
}.

(** Modelled from the spec: the payload of a present column, by physical
    type. *)
Definition payload (t : Type_) (b : Buf) : outcome Z * Buf :=
  match t with
  | kBool => Read b
  | kInteger | kFloat => ReadInt b
  | kLong | kDouble => ReadLong b
  | _ =>
      match Read b with
      | (Ok len, b') =>
          match read_bytes (Z.to_nat len) b' with
          | (Ok xs, b'') => (Ok (be_value xs), b'')
          | (Throw e, b'') => (Throw e, b'')
          end
      | (Throw e, b') => (Throw e, b')
      end
  end.

(** Modelled from the spec: [decodeKey] / [decodeValue] of a column. *)
Definition decode (s : BaseSchema) (b : Buf) : outcome (option Z) * Buf :=
  match Read b with
  | (Ok present, b') =>
      if (present =? 0)%Z then (Ok None, b')
      else
        match payload (type_ s) b' with
        | (Ok v, b'') => (Ok (Some v), b'')
        | (Throw e, b'') => (Throw e, b'')
        end
  | (Throw e, b') => (Throw e, b')
  end.

(** Modelled from the spec: [skipKey] / [skipValue] advance the cursor
    past the column without materializing a value. *)
Definition skip (s : BaseSchema) (b : Buf) : outcome unit * Buf :=
  match decode s b with
  | (Ok _, b') => (Ok tt, b')
  | (Throw e, b') => (Throw e, b')
  end.

Global Instance Schema_ops : SchemaOps Buf Z BaseSchema := {|
  GetType := type_;
  IsKey := is_key;
  GetIndex := index;
  DecodeKey := decode;
  DecodeValue := decode;
  SkipKey := skip;
  SkipValue := skip
|}.

(** Bytes from numbers, for writing inputs down. *)
Definition B (x : N) : byte := default Byte.x00 (Byte.of_N x).

End Reference.

(** ** Concrete inputs *)

Module Inputs.
Import Reference.

(** The scenario of the specification (section 8): a value column of type
    int32 and a key column of type string, table id 42, codec version 1,
    schema version 1. *)
Definition col0 : BaseSchema := {| type_ := kInteger; is_key := false; index := 0 |}.
Definition col1 : BaseSchema := {| type_ := kString; is_key := true; index := 1 |}.

Definition decoder1 : RecordDecoderV1 :=
  {| le_ := false; schema_version_ := 1; schemas_ := [Some col0; Some col1];
     common_id_ := 42; codec_version_ := 1 |}.

(** namespace 0, id 42, the string "abc", three padding bytes, tag 1 *)
Definition key1 : list byte :=
  map B [0; 0;0;0;0;0;0;0;42; 1;3;97;98;99; 0;0;0; 1]%N.

(** version 1, the integer 7 *)
Definition value1 : list byte := map B [0;0;0;1; 1;0;0;0;7]%N.

(** The same key with table id 43. *)
Definition key_other_table : list byte :=
  map B [0; 0;0;0;0;0;0;0;43; 1;3;97;98;99; 0;0;0; 1]%N.

(** A later schema version added the value column [col2]. *)
Definition col2 : BaseSchema := {| type_ := kLong; is_key := false; index := 2 |}.

Definition decoder2 : RecordDecoderV1 :=
  {| le_ := false; schema_version_ := 2;
     schemas_ := [Some col0; Some col1; Some col2];
     common_id_ := 42; codec_version_ := 1 |}.

(** A schema list with a dropped column in front, and output indices equal
    to the positions in the list. *)
Definition col0_at_1 : BaseSchema := {| type_ := kInteger; is_key := false; index := 1 |}.
Definition col1_at_2 : BaseSchema := {| type_ := kString; is_key := true; index := 2 |}.

Definition decoder_with_gap : RecordDecoderV1 :=
  {| le_ := false; schema_version_ := 1;
     schemas_ := [None; Some col0_at_1; Some col1_at_2];
     common_id_ := 42; codec_version_ := 1 |}.

(** The cursors of [decoder1] on [key1] and [value1] after the header
    checks. *)
Definition locals1 (record0 : list (Any Z)) : Locals :=
  {| key_buf := {| bytes := key1; forward_pos := 9; reverse_pos := 13;
                   le := false |};
     value_buf := {| bytes := value1; forward_pos := 4; reverse_pos := 8;
                     le := false |};
     record := record0 |}.

End Inputs.

(** ** Properties of the decoder *)

(** Take hypotheses apart and close the goal by a clash between them. *)
Ltac break_hyps :=
  repeat match goal with
         | H : _ \/ _ |- _ => destruct H as [H|H]
         | H : ex _ |- _ => destruct H as [? H]
         | H : _ /\ _ |- _ => destruct H as [? H]
         end.
Ltac same_call :=
  repeat match goal with
         | H1 : ?c = _, H2 : ?c = _ |- _ => rewrite H1 in H2; simplify_eq
         end.
Ltac clash :=
  intros; break_hyps; simplify_eq; same_call; solve [congruence | lia].

Section Properties.
Context {Buf V BaseSchema : Type}.
Context `{!BufOps Buf} `{!SchemaOps Buf V BaseSchema}.

Local Abbreviation Schemas := (list (option BaseSchema)).
Local Abbreviation Record_ := (list (Any V)).
Local Abbreviation Locals := (@Locals Buf V).
Local Abbreviation KeyLocals := (@KeyLocals Buf V).
Local Abbreviation Decoder := (@RecordDecoderV1 BaseSchema).

(** *** Notions used in the statements *)

(** The three header checks of [Decode], run in order on fresh cursors,
    all return true. *)
Definition headers_pass (this : Decoder) (key value : list byte) : Prop :=
  exists kb1 kb2 kb3 kb4 tag version vb1,
    Skip 1 (Buf_new key (le_ this)) = (Ok tt, kb1) /\
    ReadLong kb1 = (Ok (common_id_ this), kb2) /\
    ReverseRead kb2 = (Ok tag, kb3) /\ (tag <= codec_version_ this)%Z /\
    ReverseSkip 3 kb3 = (Ok tt, kb4) /\
    ReadInt (Buf_new value (le_ this)) = (Ok version, vb1) /\
    (version <= schema_version_ this)%Z.

(** The identifier read after the skipped namespace byte differs from
    the decoder's. *)
Definition prefix_fails (this : Decoder) (key : list byte) : Prop :=
  exists kb1 id kb2,
    Skip 1 (Buf_new key (le_ this)) = (Ok tt, kb1) /\
    ReadLong kb1 = (Ok id, kb2) /\ id <> common_id_ this.

(** The prefix is accepted and the byte read from the tail exceeds the
    codec version. *)
Definition reverse_tag_fails (this : Decoder) (key : list byte) : Prop :=
  exists kb1 kb2 tag kb3,
    Skip 1 (Buf_new key (le_ this)) = (Ok tt, kb1) /\
    ReadLong kb1 = (Ok (common_id_ this), kb2) /\
    ReverseRead kb2 = (Ok tag, kb3) /\ (codec_version_ this < tag)%Z.

(** The key is accepted, the three trailing bytes are skipped, and the
    leading integer of the value exceeds the schema version. *)
Definition schema_version_fails (this : Decoder) (key value : list byte)
    : Prop :=
  exists kb1 kb2 tag kb3 kb4 version vb1,
    Skip 1 (Buf_new key (le_ this)) = (Ok tt, kb1) /\
    ReadLong kb1 = (Ok (common_id_ this), kb2) /\
    ReverseRead kb2 = (Ok tag, kb3) /\ (tag <= codec_version_ this)%Z /\
    ReverseSkip 3 kb3 = (Ok tt, kb4) /\
    ReadInt (Buf_new value (le_ this)) = (Ok version, vb1) /\
    (schema_version_ this < version)%Z.

(** The prefix and the reverse tag are accepted (the checks of
    [DecodeKey]). *)
Definition key_headers_pass (this : Decoder) (key : list byte) : Prop :=
  exists kb1 kb2 kb3 kb4 tag,
    Skip 1 (Buf_new key (le_ this)) = (Ok tt, kb1) /\
    ReadLong kb1 = (Ok (common_id_ this), kb2) /\
    ReverseRead kb2 = (Ok tag, kb3) /\ (tag <= codec_version_ this)%Z /\
    ReverseSkip 3 kb3 = (Ok tt, kb4).

(** One of the three header checks returned false. *)
Definition headers_fail (this : Decoder) (key value : list byte) : Prop :=
  prefix_fails this key \/ reverse_tag_fails this key \/
  schema_version_fails this key value.

(** One of the two checks of [DecodeKey] returned false. *)
Definition key_headers_fail (this : Decoder) (key : list byte) : Prop :=
  prefix_fails this key \/ reverse_tag_fails this key.

(** The locals of [Decode] once the three checks have passed. *)
Definition checked_locals (kb vb : Buf) (record0 : Record_) : Locals :=
  {| key_buf := kb; value_buf := vb; record := record0 |}.

(** The three checks as [Decode] and projected [Decode] run them, followed
    by the rest [k] of the function. *)
Definition after_headers (this : Decoder) (k : M Locals Z) : M Locals Z :=
  let* ok := CheckPrefix this key_buf_ref in
  if negb ok then ret (-1)%Z else
  let* ok := CheckReverseTag this key_buf_ref in
  if negb ok then ret (-1)%Z else
  let* ok := CheckSchemaVersion this value_buf_ref in
  if negb ok then ret (-1)%Z else k.

(** What a dispatch with [skip = false] does to the two cursors, and the
    value it goes on to assign. *)
Definition decode_col (s : BaseSchema) (kb vb : Buf)
    : outcome (Any V) * (Buf * Buf) :=
  if IsKey s then
    match DecodeKey s kb with
    | (Ok v, kb') => (Ok (any_optional (GetType s) v), (kb', vb))
    | (Throw e, kb') => (Throw e, (kb', vb))
    end
  else if IsEnd vb then (Ok (absent (GetType s)), (kb, vb))
  else
    match DecodeValue s vb with
    | (Ok v, vb') => (Ok (any_optional (GetType s) v), (kb, vb'))
    | (Throw e, vb') => (Throw e, (kb, vb'))
    end.

(** What a dispatch with [skip = true] does to the two cursors. *)
Definition skip_col (s : BaseSchema) (kb vb : Buf)
    : outcome unit * (Buf * Buf) :=
  if IsKey s then let (r, kb') := SkipKey s kb in (r, (kb', vb))
  else if IsEnd vb then (Ok tt, (kb, vb))
  else let (r, vb') := SkipValue s vb in (r, (kb, vb')).

(** The decoder with the null entries of its schema list removed. *)
Definition without_absent_slots (this : Decoder) : Decoder :=
  {| le_ := le_ this; schema_version_ := schema_version_ this;
     schemas_ := Some <$> omap id (schemas_ this);
     common_id_ := common_id_ this; codec_version_ := codec_version_ this |}.

(** What projected [Decode] returns after its loop. *)
Definition exit_status (r : option Z) : Z :=
  match r with
  | Some status => status
  | None => 0%Z
  end.

(** The pass with the way it ended replaced by the status returned. *)
Definition projected_pass (size : Z) (mapping : list (Z * Z))
    (schemas : Schemas) (n m ri : Z) : M Locals (Z * (Z * Z * Z)) :=
  let* r := Decode_projected_columns size mapping schemas n m ri in
  ret (exit_status r.1, r.2).

(** Following the words of the specification (section 4.4): the present
    schema slots whose [is_key] is true, in schema-list order, each with
    its position in the schema list. *)
Definition key_slots (schemas : Schemas) : list (Z * BaseSchema) :=
  omap (fun p : nat * option BaseSchema =>
          match p.2 with
          | Some s => if IsKey s then Some (Z.of_nat p.1, s) else None
          | None => None
          end)
       (imap pair schemas).

(** Following the words of the specification (section 4.4): run the prefix
    and the reverse-tag check, resize the output to the length of the
    schema list, and decode every key slot from the key cursor into the
    output slot at its schema-list position. *)
Definition DecodeKey_spec (this : Decoder) (key : list byte)
    : M Record_ Z :=
  fun record0 =>
    let (r, s) :=
      (let* ok := CheckPrefix this k_key_buf_ref in
       if negb ok then ret (-1)%Z else
       let* ok := CheckReverseTag this k_key_buf_ref in
       if negb ok then ret (-1)%Z else
       resize_record k_record_ref (length (schemas_ this)) ;;;
       for_each (key_slots (schemas_ this)) (fun p =>
         let* v := on k_key_buf_ref (DecodeKey p.2) in
         at_assign k_record_ref p.1 (any_optional (GetType p.2) v)) ;;;
       ret 0%Z)
        {| k_key_buf := Buf_new key (le_ this); k_record := record0 |} in
    (r, k_record s).

(** The decoder with another schema version. *)
Definition with_schema_version (v : Z) (this : Decoder) : Decoder :=
  {| le_ := le_ this; schema_version_ := v; schemas_ := schemas_ this;
     common_id_ := common_id_ this; codec_version_ := codec_version_ this |}.

(** A caller holding a decoder, a key/value pair and an output record.
    [Decode] receives the strings by [const] reference and never assigns a
    member of [this]; only the record can come back changed. *)
Record Caller : Type := {
  decoder : Decoder;
  key_bytes : list byte;
  value_bytes : list byte;
  output : Record_
}.

(** The statement [status = decoder.Decode(key, value, output);] *)
Definition call_Decode (w : Caller) : outcome Z * Caller :=
  let (status, record') :=
    Decode (decoder w) (key_bytes w) (value_bytes w) (output w) in
  (status, {| decoder := decoder w; key_bytes := key_bytes w;
              value_bytes := value_bytes w; output := record' |}).

(** The three header checks on fresh cursors, without the record: what
    they decide and where they leave the two cursors. *)
Definition header_checks (this : Decoder) (key value : list byte)
    : outcome bool * (Buf * Buf) :=
  let vb0 := Buf_new value (le_ this) in
  match Skip 1 (Buf_new key (le_ this)) with
  | (Throw e, kb) => (Throw e, (kb, vb0))
  | (Ok _, kb1) =>
      match ReadLong kb1 with
      | (Throw e, kb) => (Throw e, (kb, vb0))
      | (Ok id, kb2) =>
          if negb (id =? common_id_ this)%Z then (Ok false, (kb2, vb0)) else
          match ReverseRead kb2 with
          | (Throw e, kb) => (Throw e, (kb, vb0))
          | (Ok tag, kb3) =>
              if negb (tag <=? codec_version_ this)%Z
              then (Ok false, (kb3, vb0)) else
              match ReverseSkip 3 kb3 with
              | (Throw e, kb) => (Throw e, (kb, vb0))
              | (Ok _, kb4) =>
                  match ReadInt vb0 with
                  | (Throw e, vb) => (Throw e, (kb4, vb))
                  | (Ok version, vb1) =>
                      (Ok (version <=? schema_version_ this)%Z, (kb4, vb1))
                  end
              end
          end
      end
  end.

(** The number of present slots of a schema list. *)
Definition present_count (schemas : Schemas) : Z :=
  Z.of_nat (length (omap id schemas)).

(** Request [i] of a projection is never met by the position counter: a
    request that the plan orders at or before it (by position, then by
    output slot) asks for a position that is no present slot, or for the
    position of a request with a lower output slot. *)
Definition never_matched (schemas : Schemas) (column_indexes : list Z)
    (i : nat) : Prop :=
  exists (c : Z) (i0 : nat) (c0 : Z),
    column_indexes !! i = Some c /\
    column_indexes !! i0 = Some c0 /\
    ((c0 < c)%Z \/ (c0 = c /\ i0 <= i)) /\
    (~ (0 <= c0 < present_count schemas)%Z \/
     exists i1 : nat, i1 < i0 /\ column_indexes !! i1 = Some c0).

(** The contract between a schema's skip and its decode: where decoding a
    column succeeds, skipping it succeeds and leaves the cursor where
    decoding leaves it. *)
Definition skip_follows_decode : Prop :=
  (forall (s : BaseSchema) b v b',
     DecodeKey s b = (Ok v, b') -> SkipKey s b = (Ok tt, b')) /\
  (forall (s : BaseSchema) b v b',
     DecodeValue s b = (Ok v, b') -> SkipValue s b = (Ok tt, b')).

(** The projection property as the specification words it: the requested
    positions are positions in the schema list. *)
Definition projection_by_list_position (this : Decoder)
    (key value : list byte) (column_indexes : list Z) : Prop :=
  forall (record0 recordP0 record_full : Record_),
    Decode this key value record0 = (Ok 0%Z, record_full) ->
    exists record_proj,
      Decode_projected this key value column_indexes recordP0 =
      (Ok 0%Z, record_proj) /\
      length record_proj = length column_indexes /\
      forall (i : nat) c s,
        column_indexes !! i = Some c ->
        schemas_ this !! Z.to_nat c = Some (Some s) ->
        record_proj !! i = record_full !! Z.to_nat (GetIndex s).

(** *** Dispatch *)

(** The table entry selected for a schema is the instantiation for the
    schema's own type. *)
Lemma DecodeOrSkip_dispatch {S} (schema : BaseSchema)
    (kb vb : ref S Buf) (rec : ref S Record_) idx skip :
  DecodeOrSkip schema kb vb rec idx skip =
  CastAndDecodeOrSkip (GetType schema) schema kb vb rec idx skip.
Proof. unfold DecodeOrSkip. by destruct (GetType schema). Qed.

(** The table has one entry per physical type. *)
Lemma dispatch_table_complete {S} (t : Type_) :
  ordinal t < length (@cast_and_decode_or_skip_func_ptrs Buf V BaseSchema _ _ S).
Proof. destruct t; simpl; lia. Qed.

(** *** Header checks *)

(** How the header phase ends: rejected, thrown out of, or passed with
    the cursors the checks left. *)
Lemma header_phase (this : Decoder) key value record0 :
  let st0 := {| key_buf := Buf_new key (le_ this);
                value_buf := Buf_new value (le_ this);
                record := record0 |} in
  (headers_fail this key value /\
   exists st, record st = record0 /\
     forall k, after_headers this k st0 = (Ok (-1)%Z, st)) \/
  (~ headers_fail this key value /\ ~ headers_pass this key value /\
   exists e st, record st = record0 /\
     forall k, after_headers this k st0 = (Throw e, st)) \/
  (~ headers_fail this key value /\
   exists kb1 kb2 kb3 kb4 tag version vb1,
     Skip 1 (Buf_new key (le_ this)) = (Ok tt, kb1) /\
     ReadLong kb1 = (Ok (common_id_ this), kb2) /\
     ReverseRead kb2 = (Ok tag, kb3) /\ (tag <= codec_version_ this)%Z /\
     ReverseSkip 3 kb3 = (Ok tt, kb4) /\
     ReadInt (Buf_new value (le_ this)) = (Ok version, vb1) /\
     (version <= schema_version_ this)%Z /\
     forall k, after_headers this k st0 = k (checked_locals kb4 vb1 record0)).
Proof.
  intros st0. subst st0.
  unfold headers_fail, prefix_fails, reverse_tag_fails, schema_version_fails,
    headers_pass.
  unfold after_headers, CheckPrefix, CheckReverseTag, CheckSchemaVersion,
    checked_locals.
  unfold bind, on, ret; simpl.
  destruct (Skip 1 (Buf_new key (le_ this))) as [[[]|e1] kb1] eqn:E1; simpl.
  2:{ right; left. split; [|split]; [intros ?; clash..|].
      do 2 eexists. split; [|intros k; reflexivity]. done. }
  destruct (ReadLong kb1) as [[id|e2] kb2] eqn:E2; simpl.
  2:{ right; left. split; [|split]; [intros ?; clash..|].
      do 2 eexists. split; [|intros k; reflexivity]. done. }
  destruct (id =? common_id_ this)%Z eqn:Eid; simpl.
  2:{ left. apply Z.eqb_neq in Eid. split; [left; eauto 10|].
      eexists. split; [|intros k; reflexivity]. done. }
  apply Z.eqb_eq in Eid; subst id.
  destruct (ReverseRead kb2) as [[tag|e3] kb3] eqn:E3; simpl.
  2:{ right; left. split; [|split]; [intros ?; clash..|].
      do 2 eexists. split; [|intros k; reflexivity]. done. }
  destruct (tag <=? codec_version_ this)%Z eqn:Etag; simpl.
  2:{ left. apply Z.leb_gt in Etag. split; [right; left; eauto 10|].
      eexists. split; [|intros k; reflexivity]. done. }
  apply Z.leb_le in Etag.
  destruct (ReverseSkip 3 kb3) as [[[]|e4] kb4] eqn:E4; simpl.
  2:{ right; left. split; [|split]; [intros ?; clash..|].
      do 2 eexists. split; [|intros k; reflexivity]. done. }
  destruct (ReadInt (Buf_new value (le_ this))) as [[version|e5] vb1] eqn:E5;
    simpl.
  2:{ right; left. split; [|split]; [intros ?; clash..|].
      do 2 eexists. split; [|intros k; reflexivity]. done. }
  destruct (version <=? schema_version_ this)%Z eqn:Ever; simpl.
  2:{ left. apply Z.leb_gt in Ever. split; [right; right; eauto 15|].
      eexists. split; [|intros k; reflexivity]. done. }
  apply Z.leb_le in Ever.
  right; right. split; [intros ?; clash|].
  exists kb1, kb2, kb3, kb4, tag, version, vb1. done.
Qed.

(** The same for the two checks of [DecodeKey]. *)
Lemma key_header_phase (this : Decoder) key record0 :
  let st0 := {| k_key_buf := Buf_new key (le_ this); k_record := record0 |} in
  (key_headers_fail this key /\
   exists st, DecodeKey_body this st0 = (Ok (-1)%Z, st) /\
              k_record st = record0) \/
  (~ key_headers_fail this key /\ ~ key_headers_pass this key /\
   exists e st, DecodeKey_body this st0 = (Throw e, st) /\
                k_record st = record0) \/
  (~ key_headers_fail this key /\
   exists kb1 kb2 kb3 kb4 tag,
     Skip 1 (Buf_new key (le_ this)) = (Ok tt, kb1) /\
     ReadLong kb1 = (Ok (common_id_ this), kb2) /\
     ReverseRead kb2 = (Ok tag, kb3) /\ (tag <= codec_version_ this)%Z /\
     ReverseSkip 3 kb3 = (Ok tt, kb4) /\
     DecodeKey_body this st0 =
       (resize_record k_record_ref (length (schemas_ this)) ;;;
        DecodeKey_columns (schemas_ this) 0%Z ;;; ret 0%Z)
       {| k_key_buf := kb4; k_record := record0 |}).
Proof.
  intros st0. subst st0.
  unfold key_headers_fail, prefix_fails, reverse_tag_fails, key_headers_pass.
  unfold DecodeKey_body, CheckPrefix, CheckReverseTag.
  unfold bind, on, ret; simpl.
  destruct (Skip 1 (Buf_new key (le_ this))) as [[[]|e1] kb1] eqn:E1; simpl.
  2:{ right; left. split; [|split]; [intros ?; clash..|]. eauto. }
  destruct (ReadLong kb1) as [[id|e2] kb2] eqn:E2; simpl.
  2:{ right; left. split; [|split]; [intros ?; clash..|]. eauto. }
  destruct (id =? common_id_ this)%Z eqn:Eid; simpl.
  2:{ left. apply Z.eqb_neq in Eid. split; [left; eauto 10|eauto]. }
  apply Z.eqb_eq in Eid; subst id.
  destruct (ReverseRead kb2) as [[tag|e3] kb3] eqn:E3; simpl.
  2:{ right; left. split; [|split]; [intros ?; clash..|]. eauto. }
  destruct (tag <=? codec_version_ this)%Z eqn:Etag; simpl.
  2:{ left. apply Z.leb_gt in Etag. split; [right; eauto 10|eauto]. }
  apply Z.leb_le in Etag.
  destruct (ReverseSkip 3 kb3) as [[[]|e4] kb4] eqn:E4; simpl.
  2:{ right; left. split; [|split]; [intros ?; clash..|]. eauto. }
  right; right. split; [intros ?; clash|].
  exists kb1, kb2, kb3, kb4, tag. done.
Qed.

(** Passing and failing exclude each other. *)
Lemma headers_pass_not_fail (this : Decoder) key value :
  headers_pass this key value -> ~ headers_fail this key value.
Proof.
  unfold headers_pass, headers_fail, prefix_fails, reverse_tag_fails,
    schema_version_fails.
  intros Hp Hf. clash.
Qed.

(** After the checks a decode returns 0 or throws; it never rejects. *)
Lemma full_tail_outcome (schemas : Schemas) (n : nat) (st : Locals) :
  let r := (resize_record record_ref n ;;; Decode_columns schemas ;;;
            ret 0%Z) st in
  r.1 = Ok 0%Z \/ exists e, r.1 = Throw e.
Proof.
  unfold bind, resize_record, ret; simpl.
  destruct (Decode_columns schemas _) as [[[]|e] st']; simpl; eauto.
Qed.

Lemma key_tail_outcome (schemas : Schemas) (n : nat) (st : KeyLocals) :
  let r := (resize_record k_record_ref n ;;; DecodeKey_columns schemas 0%Z ;;;
            ret 0%Z) st in
  r.1 = Ok 0%Z \/ exists e, r.1 = Throw e.
Proof.
  unfold bind, resize_record, ret; simpl.
  destruct (DecodeKey_columns schemas _ _) as [[[]|e] st']; simpl; eauto.
Qed.

(** The column pass of projected decode leaves by [return 0] or runs to
    the end of the list. *)
Lemma projected_columns_status size mapping (schemas : Schemas) n m ri
    (st : Locals) r cnt st' :
  Decode_projected_columns size mapping schemas n m ri st = (Ok (r, cnt), st') ->
  r = Some 0%Z \/ r = None.
Proof.
  revert n m ri st. induction schemas as [|[s|] rest IH]; intros n m ri st;
    simpl.
  - unfold ret. intros [= <- _ _]. by right.
  - destruct (size =? n)%Z; [unfold ret; intros [= <- _ _]; by left|].
    destruct (IsSkipOnly mapping n m ri) as [is_skip [[n' m'] ri']].
    unfold bind. destruct (DecodeOrSkip _ _ _ _ _ _ _) as [[[]|e] st1];
      [apply IH|done].
  - destruct (size =? n)%Z; [unfold ret; intros [= <- _ _]; by left|].
    apply IH.
Qed.

Lemma projected_tail_outcome (this : Decoder) column_indexes (st : Locals) :
  let r := (resize_record record_ref (length column_indexes) ;;;
            let* r := Decode_projected_columns
                        (Z.of_nat (length column_indexes))
                        (col_index_mapping column_indexes) (schemas_ this)
                        0%Z 0%Z 0%Z in
            match r.1 with
            | Some status => ret status
            | None => ret 0%Z
            end) st in
  r.1 = Ok 0%Z \/ exists e, r.1 = Throw e.
Proof.
  unfold bind, resize_record; simpl.
  destruct (Decode_projected_columns _ _ _ _ _ _ _) as [[[r cnt]|e] st']
    eqn:E; simpl; [|eauto].
  apply projected_columns_status in E as [->| ->]; simpl; eauto.
Qed.

Lemma Decode_body_after_headers (this : Decoder) :
  Decode_body this =
  after_headers this
    (resize_record record_ref (length (schemas_ this)) ;;;
     Decode_columns (schemas_ this) ;;; ret 0%Z).
Proof. reflexivity. Qed.

Lemma Decode_projected_body_after_headers (this : Decoder) column_indexes :
  Decode_projected_body this column_indexes =
  after_headers this
    (resize_record record_ref (length column_indexes) ;;;
     let* r := Decode_projected_columns (Z.of_nat (length column_indexes))
                 (col_index_mapping column_indexes) (schemas_ this)
                 0%Z 0%Z 0%Z in
     match r.1 with
     | Some status => ret status
     | None => ret 0%Z
     end).
Proof. reflexivity. Qed.

(** Full decode is rejected exactly when a header check fails, and then the
    record is as the caller passed it. *)
Lemma Decode_rejected (this : Decoder) key value record0 :
  ((Decode this key value record0).1 = Ok (-1)%Z <->
   headers_fail this key value) /\
  (headers_fail this key value ->
   Decode this key value record0 = (Ok (-1)%Z, record0)).
Proof.
  unfold Decode. rewrite Decode_body_after_headers.
  destruct (header_phase this key value record0)
    as [(Hf & st & Hr & ->) | [(Hf & _ & e & st & Hr & ->)
       | (Hf & kb1 & kb2 & kb3 & kb4 & tag & ver & vb1 & _ & _ & _ & _ & _
             & _ & _ & ->)]];
    simpl.
  - subst. tauto.
  - split; [split; [done|tauto]|tauto].
  - pose proof (full_tail_outcome (schemas_ this) (length (schemas_ this))
                  (checked_locals kb4 vb1 record0)) as Ht. simpl in Ht.
    destruct ((resize_record record_ref (length (schemas_ this)) ;;;
               Decode_columns (schemas_ this) ;;; ret 0%Z)
                (checked_locals kb4 vb1 record0)) as [r st].
    simpl in *. split; [split; [|tauto]|tauto].
    intros ->. destruct Ht as [Ht|[e Ht]]; discriminate.
Qed.

Lemma Decode_projected_rejected (this : Decoder) key value column_indexes
    record0 :
  ((Decode_projected this key value column_indexes record0).1 = Ok (-1)%Z <->
   headers_fail this key value) /\
  (headers_fail this key value ->
   Decode_projected this key value column_indexes record0 =
   (Ok (-1)%Z, record0)).
Proof.
  unfold Decode_projected. rewrite Decode_projected_body_after_headers.
  destruct (header_phase this key value record0)
    as [(Hf & st & Hr & ->) | [(Hf & _ & e & st & Hr & ->)
       | (Hf & kb1 & kb2 & kb3 & kb4 & tag & ver & vb1 & _ & _ & _ & _ & _
             & _ & _ & ->)]];
    simpl.
  - subst. tauto.
  - split; [split; [done|tauto]|tauto].
  - pose proof (projected_tail_outcome this column_indexes
                  (checked_locals kb4 vb1 record0)) as Ht. simpl in Ht.
    match goal with
    | |- context [let (_, _) := ?c in _] => destruct c as [r st]
    end.
    simpl in *. split; [split; [|tauto]|tauto].
    intros ->. destruct Ht as [Ht|[e Ht]]; discriminate.
Qed.

Lemma DecodeKey_rejected (this : Decoder) key record0 :
  ((RecordDecoderV1_DecodeKey this key record0).1 = Ok (-1)%Z <->
   key_headers_fail this key) /\
  (key_headers_fail this key ->
   RecordDecoderV1_DecodeKey this key record0 = (Ok (-1)%Z, record0)).
Proof.
  unfold RecordDecoderV1_DecodeKey.
  destruct (key_header_phase this key record0)
    as [(Hf & st & -> & Hr) | [(Hf & _ & e & st & -> & Hr)
       | (Hf & kb1 & kb2 & kb3 & kb4 & tag & _ & _ & _ & _ & _ & ->)]];
    simpl.
  - subst. tauto.
  - split; [split; [done|tauto]|tauto].
  - pose proof (key_tail_outcome (schemas_ this) (length (schemas_ this))
                  {| k_key_buf := kb4; k_record := record0 |}) as Ht.
    simpl in Ht.
    match goal with
    | |- context [let (_, _) := ?c in _] => destruct c as [r st]
    end.
    simpl in *. split; [split; [|tauto]|tauto].
    intros ->. destruct Ht as [Ht|[e Ht]]; discriminate.
Qed.

(** C1.  Full decode returns the rejected status if and only if one of the
    three header checks fails: the identifier read after the skipped
    namespace byte differs from the decoder's, or (that check passed and)
    the byte read from the tail of the key exceeds the codec version, or
    (both passed, three more trailing bytes were skipped, and) the leading
    integer of the value exceeds the schema version.  A failing check ends
    the call with the one status -1 and the record as it was passed, so no
    column has been decoded.  When [CheckReverseTag] accepts the tail byte
    it goes on to skip three more bytes from the tail. *)
Theorem Decode_rejects_iff_a_header_check_fails
    (this : Decoder) (key value : list byte) (record0 : Record_) :
  ((Decode this key value record0).1 = Ok (-1)%Z <->
   prefix_fails this key \/ reverse_tag_fails this key \/
   schema_version_fails this key value) /\
  (prefix_fails this key \/ reverse_tag_fails this key \/
   schema_version_fails this key value ->
   Decode this key value record0 = (Ok (-1)%Z, record0)) /\
  (forall (S : Type) (buf : ref S Buf) (st : S) tag b1,
     ReverseRead (rd buf st) = (Ok tag, b1) ->
     (tag <= codec_version_ this)%Z ->
     CheckReverseTag this buf st =
     (on buf (ReverseSkip 3) ;;; ret true) (wr buf b1 st)).
Proof.
  split; [apply Decode_rejected|split; [apply Decode_rejected|]].
  intros S buf st tag b1 Hread Htag.
  unfold CheckReverseTag. unfold bind at 1. unfold on at 1. rewrite Hread.
  apply Z.leb_le in Htag. by rewrite Htag.
Qed.

(** C9.  When a header check fails, full decode, projected decode and
    key-only decode return the rejected status and hand the record back
    exactly as the caller passed it; a record that comes back changed
    means the applicable checks all passed. *)
Theorem rejected_decode_leaves_the_record_untouched
    (this : Decoder) (key value : list byte) (column_indexes : list Z)
    (record0 : Record_) :
  (headers_fail this key value ->
   Decode this key value record0 = (Ok (-1)%Z, record0) /\
   Decode_projected this key value column_indexes record0 =
   (Ok (-1)%Z, record0)) /\
  (key_headers_fail this key ->
   RecordDecoderV1_DecodeKey this key record0 = (Ok (-1)%Z, record0)) /\
  ((Decode this key value record0).2 <> record0 ->
   headers_pass this key value) /\
  ((Decode_projected this key value column_indexes record0).2 <> record0 ->
   headers_pass this key value) /\
  ((RecordDecoderV1_DecodeKey this key record0).2 <> record0 ->
   key_headers_pass this key).
Proof.
  split; [|split; [|split; [|split]]].
  - intros Hf. split; [by apply Decode_rejected
                      |by apply Decode_projected_rejected].
  - apply DecodeKey_rejected.
  - unfold Decode. rewrite Decode_body_after_headers.
    destruct (header_phase this key value record0)
      as [(Hf & st & Hr & ->) | [(Hf & _ & e & st & Hr & ->)
         | (Hf & kb1 & kb2 & kb3 & kb4 & tag & ver & vb1 & H)]];
      simpl; [done..|].
    intros _. exists kb1, kb2, kb3, kb4, tag, ver, vb1. tauto.
  - unfold Decode_projected. rewrite Decode_projected_body_after_headers.
    destruct (header_phase this key value record0)
      as [(Hf & st & Hr & ->) | [(Hf & _ & e & st & Hr & ->)
         | (Hf & kb1 & kb2 & kb3 & kb4 & tag & ver & vb1 & H)]];
      simpl; [done..|].
    intros _. exists kb1, kb2, kb3, kb4, tag, ver, vb1. tauto.
  - unfold RecordDecoderV1_DecodeKey.
    destruct (key_header_phase this key record0)
      as [(Hf & st & -> & Hr) | [(Hf & _ & e & st & -> & Hr)
         | (Hf & kb1 & kb2 & kb3 & kb4 & tag & H)]];
      simpl; [done..|].
    intros _. exists kb1, kb2, kb3, kb4, tag. tauto.
Qed.

(** *** One dispatch, seen from [Decode]'s locals *)

Lemma DecodeOrSkip_decode (s : BaseSchema) idx (st : Locals) :
  DecodeOrSkip s key_buf_ref value_buf_ref record_ref idx false st =
  match decode_col s (key_buf st) (value_buf st) with
  | (Ok v, (kb', vb')) =>
      at_assign record_ref idx v
        {| key_buf := kb'; value_buf := vb'; record := record st |}
  | (Throw e, (kb', vb')) =>
      (Throw e, {| key_buf := kb'; value_buf := vb'; record := record st |})
  end.
Proof.
  rewrite DecodeOrSkip_dispatch. unfold CastAndDecodeOrSkip, decode_col.
  destruct st as [kb vb rec]. unfold bind, on, peek; simpl.
  destruct (IsKey s); simpl.
  - by destruct (DecodeKey s kb) as [[v|e] kb'].
  - destruct (IsEnd vb); simpl; [done|].
    by destruct (DecodeValue s vb) as [[v|e] vb'].
Qed.

Lemma DecodeOrSkip_skip (s : BaseSchema) idx (st : Locals) :
  DecodeOrSkip s key_buf_ref value_buf_ref record_ref idx true st =
  let '(r, (kb', vb')) := skip_col s (key_buf st) (value_buf st) in
  (r, {| key_buf := kb'; value_buf := vb'; record := record st |}).
Proof.
  rewrite DecodeOrSkip_dispatch. unfold CastAndDecodeOrSkip, skip_col.
  destruct st as [kb vb rec]. unfold bind, on, peek, ret; simpl.
  destruct (IsKey s); simpl.
  - by destruct (SkipKey s kb).
  - destruct (IsEnd vb); simpl; [done|].
    by destruct (SkipValue s vb).
Qed.

Lemma for_each_app {S A} (l1 l2 : list A) (body : A -> M S unit) st :
  for_each (l1 ++ l2) body st =
  (for_each l1 body ;;; for_each l2 body) st.
Proof.
  revert st. induction l1 as [|x l1 IH]; intros st; simpl.
  - done.
  - unfold bind. destruct (body x st) as [[[]|e] st1]; [|done].
    rewrite IH. done.
Qed.

(** C3.  A value column dispatched with [skip = false] while the value
    cursor is at end-of-data gets the absent marker of its type written to
    its output slot, and no cursor moves; nothing fails as long as the slot
    exists.  In particular, when full decode reaches the end of the value
    bytes after the columns [old] that the writer knew, every value column
    [new] that a later schema version added decodes to the absent
    marker. *)
Theorem missing_value_column_decodes_to_absent_marker :
  (forall (S : Type) (schema : BaseSchema) (kb vb : ref S Buf)
          (rec : ref S Record_) (idx : Z) (st : S),
     IsKey schema = false ->
     IsEnd (rd vb st) = true ->
     (0 <= idx < Z.of_nat (length (rd rec st)))%Z ->
     DecodeOrSkip schema kb vb rec idx false st =
     (Ok tt, wr rec (<[Z.to_nat idx := absent (GetType schema)]> (rd rec st))
                st)) /\
  (forall (old new : Schemas) (st0 st1 : Locals),
     Decode_columns old st0 = (Ok tt, st1) ->
     IsEnd (value_buf st1) = true ->
     Forall (fun bs => match bs with
                       | Some s =>
                           IsKey s = false /\
                           (0 <= GetIndex s < Z.of_nat (length (record st1)))%Z
                       | None => True
                       end) new ->
     Decode_columns (old ++ new) st0 =
     (Ok tt,
      {| key_buf := key_buf st1; value_buf := value_buf st1;
         record := foldl (fun r s => <[Z.to_nat (GetIndex s) :=
                                        absent (GetType s)]> r)
                         (record st1) (omap id new) |})).
Proof.
  split.
  - intros S schema kb vb rec idx st Hkey Hend Hidx.
    rewrite DecodeOrSkip_dispatch. unfold CastAndDecodeOrSkip.
    rewrite Hkey. unfold bind, peek, at_assign. rewrite Hend.
    by rewrite decide_True.
  - intros old new st0 st1 Hold Hend Hnew.
    unfold Decode_columns in *. rewrite for_each_app. unfold bind at 1.
    rewrite Hold. clear Hold st0 old.
    revert st1 Hend Hnew. induction new as [|[s|] new IH]; intros st Hend Hnew.
    + by destruct st.
    + apply Forall_cons in Hnew as [[Hkey Hidx] Hnew].
      simpl. unfold bind at 1. rewrite DecodeOrSkip_decode.
      unfold decode_col. rewrite Hkey, Hend.
      unfold at_assign. simpl. rewrite decide_True by done.
      rewrite IH; simpl; [done|done|].
      by rewrite length_insert.
    + apply Forall_cons in Hnew as [_ Hnew].
      simpl. unfold bind at 1, ret at 1. by apply IH.
Qed.

(** C4.  A key column dispatched with [skip = false] is decoded from the
    key cursor by the schema's [DecodeKey] and the value is assigned to the
    output slot, whatever [IsEnd] says of either cursor: the branch that
    writes the absent marker belongs to value columns only.  The value
    cursor is left alone.  This holds for [Decode]'s two cursors and for
    the single cursor that [DecodeKey] passes twice. *)
Theorem key_column_is_always_decoded_from_the_key_cursor :
  (forall (S : Type) (schema : BaseSchema) (kb vb : ref S Buf)
          (rec : ref S Record_) (idx : Z) (st : S),
     IsKey schema = true ->
     DecodeOrSkip schema kb vb rec idx false st =
     (let* v := on kb (DecodeKey schema) in
      at_assign rec idx (any_optional (GetType schema) v)) st) /\
  (forall (schema : BaseSchema) (idx : Z) (st : Locals),
     IsKey schema = true ->
     DecodeOrSkip schema key_buf_ref value_buf_ref record_ref idx false st =
     match DecodeKey schema (key_buf st) with
     | (Ok v, kb') =>
         if decide (0 <= idx < Z.of_nat (length (record st)))%Z
         then (Ok tt,
               {| key_buf := kb'; value_buf := value_buf st;
                  record := <[Z.to_nat idx :=
                              any_optional (GetType schema) v]> (record st) |})
         else (Throw out_of_range,
               {| key_buf := kb'; value_buf := value_buf st;
                  record := record st |})
     | (Throw e, kb') =>
         (Throw e, {| key_buf := kb'; value_buf := value_buf st;
                      record := record st |})
     end) /\
  (forall (schema : BaseSchema) (idx : Z) (st : KeyLocals),
     IsKey schema = true ->
     DecodeOrSkip schema k_key_buf_ref k_key_buf_ref k_record_ref idx false st =
     match DecodeKey schema (k_key_buf st) with
     | (Ok v, kb') =>
         if decide (0 <= idx < Z.of_nat (length (k_record st)))%Z
         then (Ok tt,
               {| k_key_buf := kb';
                  k_record := <[Z.to_nat idx :=
                                any_optional (GetType schema) v]>
                                (k_record st) |})
         else (Throw out_of_range,
               {| k_key_buf := kb'; k_record := k_record st |})
     | (Throw e, kb') => (Throw e, {| k_key_buf := kb'; k_record := k_record st |})
     end).
Proof.
  split; [|split].
  - intros S schema kb vb rec idx st Hkey.
    rewrite DecodeOrSkip_dispatch. unfold CastAndDecodeOrSkip.
    by rewrite Hkey.
  - intros schema idx st Hkey. rewrite DecodeOrSkip_decode.
    unfold decode_col. rewrite Hkey.
    destruct (DecodeKey schema (key_buf st)) as [[v|e] kb']; [|done].
    unfold at_assign; simpl. by case_decide.
  - intros schema idx st Hkey.
    rewrite DecodeOrSkip_dispatch. unfold CastAndDecodeOrSkip.
    rewrite Hkey. unfold bind, on, at_assign; simpl.
    destruct (DecodeKey schema (k_key_buf st)) as [[v|e] kb']; [|done].
    simpl. by case_decide.
Qed.

(** *** The pass of projected decode *)

Lemma projected_pass_done size mapping (schemas : Schemas) m ri st :
  projected_pass size mapping schemas size m ri st =
  (Ok (0%Z, (size, m, ri)), st).
Proof.
  unfold projected_pass, bind, ret.
  destruct schemas as [|bs rest]; simpl; [done|].
  by rewrite Z.eqb_refl.
Qed.

Lemma projected_pass_without_absent size mapping (schemas : Schemas) n m ri st :
  projected_pass size mapping schemas n m ri st =
  projected_pass size mapping (Some <$> omap id schemas) n m ri st.
Proof.
  revert n m ri st. induction schemas as [|[s|] rest IH]; intros n m ri st.
  - done.
  - unfold projected_pass, bind, ret in *. simpl.
    destruct (size =? n)%Z; [done|].
    destruct (IsSkipOnly mapping n m ri) as [is_skip [[n' m'] ri']].
    unfold bind.
    destruct (DecodeOrSkip _ _ _ _ _ _ _) as [[[]|e] st1]; [|done].
    apply IH.
  - simpl omap. rewrite <- IH.
    unfold projected_pass at 1. simpl.
    destruct (size =? n)%Z eqn:E.
    + apply Z.eqb_eq in E as <-. by rewrite projected_pass_done.
    + done.
Qed.

(** C6.  Once the request counter [n] equals the length of the projection,
    the pass leaves the function by [return 0] at the next schema slot
    without dispatching it: counters, cursors and record stay as they
    are.  Hence whatever follows a prefix [pre] of the schema list that
    satisfied every request changes nothing: the pass over [pre ++ post]
    ends in the state the pass over [pre] ended in, with status 0. *)
Theorem projected_decode_stops_once_every_request_is_met :
  (forall size mapping (bs : option BaseSchema) (rest : Schemas) m ri
          (st : Locals),
     Decode_projected_columns size mapping (bs :: rest) size m ri st =
     (Ok (Some 0%Z, (size, m, ri)), st)) /\
  (forall size mapping (pre post : Schemas) n m ri (st : Locals)
          r n' m' ri' st',
     Decode_projected_columns size mapping pre n m ri st =
     (Ok (r, (n', m', ri')), st') ->
     n' = size ->
     post <> [] ->
     Decode_projected_columns size mapping (pre ++ post) n m ri st =
     (Ok (Some 0%Z, (n', m', ri')), st')).
Proof.
  assert (Hnow : forall size mapping (bs : option BaseSchema) (rest : Schemas)
                        m ri (st : Locals),
             Decode_projected_columns size mapping (bs :: rest) size m ri st =
             (Ok (Some 0%Z, (size, m, ri)), st)).
  { intros. simpl. by rewrite Z.eqb_refl. }
  split; [exact Hnow|].
  intros size mapping pre post.
  induction pre as [|bs pre IH]; intros n m ri st r n' m' ri' st' Hpre Hn Hpost.
  - simpl in Hpre. unfold ret in Hpre. simplify_eq.
    destruct post as [|bs post]; [done|]. apply Hnow.
  - simpl in *. destruct (size =? n)%Z; [unfold ret in *; by simplify_eq|].
    destruct bs as [s|].
    + destruct (IsSkipOnly mapping n m ri) as [is_skip [[n1 m1] ri1]].
      unfold bind in *.
      destruct (DecodeOrSkip _ _ _ _ _ _ _) as [[[]|e] st1]; [|done].
      by eapply IH.
    + by eapply IH.
Qed.

(** C7.  A null schema slot costs the pass nothing: unless the pass is
    already over, it continues with the rest of the list under the same
    request counter [n], the same position counter [m], the same cursors and
    the same record, and dispatches nothing.  A present slot always moves
    the position counter by one, and the request counter only on a match.
    So the positions of a projection count present slots only: projected
    decode gives the same status and record on the schema list with its
    null entries removed. *)
Theorem absent_slots_do_not_advance_the_position_counter :
  (forall size mapping (rest : Schemas) n m ri (st : Locals),
     Decode_projected_columns size mapping (None :: rest) n m ri st =
     if (size =? n)%Z then (Ok (Some 0%Z, (n, m, ri)), st)
     else Decode_projected_columns size mapping rest n m ri st) /\
  (forall size mapping (s : BaseSchema) (rest : Schemas) n m ri (st : Locals),
     size <> n ->
     Decode_projected_columns size mapping (Some s :: rest) n m ri st =
     let request := nth (Z.to_nat n) mapping (0, 0)%Z in
     if (request.1 =? m)%Z
     then (DecodeOrSkip s key_buf_ref value_buf_ref record_ref request.2
                        false ;;;
           Decode_projected_columns size mapping rest (n + 1) (m + 1)
                                    request.2) st
     else (DecodeOrSkip s key_buf_ref value_buf_ref record_ref ri true ;;;
           Decode_projected_columns size mapping rest n (m + 1) ri) st) /\
  (forall (this : Decoder) key value column_indexes (record0 : Record_),
     Decode_projected this key value column_indexes record0 =
     Decode_projected (without_absent_slots this) key value column_indexes
                      record0).
Proof.
  split; [|split].
  - intros. simpl. by destruct (size =? n)%Z.
  - intros size mapping s rest n m ri st Hn. simpl.
    apply Z.eqb_neq in Hn. rewrite Hn. unfold IsSkipOnly.
    by destruct (_ =? m)%Z.
  - intros this key value column_indexes record0.
    unfold Decode_projected. rewrite !Decode_projected_body_after_headers.
    change (le_ (without_absent_slots this)) with (le_ this).
    change (schemas_ (without_absent_slots this))
      with (Some <$> omap id (schemas_ this)).
    change (after_headers (without_absent_slots this))
      with (after_headers this).
    destruct (header_phase this key value record0)
      as [(Hf & st & Hr & Hk) | [(Hf & _ & e & st & Hr & Hk)
         | (Hf & kb1 & kb2 & kb3 & kb4 & tag & ver & vb1 & _ & _ & _ & _
               & _ & _ & _ & Hk)]];
      rewrite !Hk; [done..|].
    unfold bind at 1 3. unfold resize_record.
    cbn [rd wr record_ref].
    pose proof (projected_pass_without_absent
                  (Z.of_nat (length column_indexes))
                  (col_index_mapping column_indexes) (schemas_ this) 0 0 0
                  {| key_buf := key_buf (checked_locals kb4 vb1 record0);
                     value_buf := value_buf (checked_locals kb4 vb1 record0);
                     record := resize (length column_indexes) any_empty
                                 (record (checked_locals kb4 vb1 record0)) |})
      as Hp.
    unfold projected_pass, bind, ret in Hp. unfold bind, ret.
    destruct (Decode_projected_columns _ _ (schemas_ this) _ _ _ _)
      as [[[r cnt]|e] st1];
      destruct (Decode_projected_columns _ _ (Some <$> _) _ _ _ _)
      as [[[r2 cnt2]|e2] st2]; simpl in *; simplify_eq; try done.
    destruct r, r2; simpl in *; by simplify_eq.
Qed.

(** *** Key-only decode *)

Lemma bind_run {S A B} (c : M S A) (k : A -> M S B) st :
  bind c k st = match c st with
                | (Ok a, s') => k a s'
                | (Throw e, s') => (Throw e, s')
                end.
Proof. reflexivity. Qed.

Lemma for_each_cons {S A} (x : A) (l : list A) (body : A -> M S unit) st :
  for_each (x :: l) body st =
  match body x st with
  | (Ok _, s') => for_each l body s'
  | (Throw e, s') => (Throw e, s')
  end.
Proof. reflexivity. Qed.

Lemma DecodeKey_columns_cons (bs : option BaseSchema) (rest : Schemas) idx st :
  DecodeKey_columns (bs :: rest) idx st =
  match match bs with
        | Some s =>
            if IsKey s
            then DecodeOrSkip s k_key_buf_ref k_key_buf_ref k_record_ref
                              idx false st
            else (Ok tt, st)
        | None => (Ok tt, st)
        end with
  | (Ok _, s') => DecodeKey_columns rest (idx + 1)%Z s'
  | (Throw e, s') => (Throw e, s')
  end.
Proof.
  simpl. rewrite bind_run. destruct bs as [s|]; [|done].
  by destruct (IsKey s).
Qed.

Lemma DecodeKey_columns_key_slots (schemas : Schemas) (k : nat) st :
  DecodeKey_columns schemas (Z.of_nat k) st =
  for_each
    (omap (fun p : nat * option BaseSchema =>
             match p.2 with
             | Some s => if IsKey s then Some (Z.of_nat p.1, s) else None
             | None => None
             end)
          (imap (fun i bs => (k + i, bs)) schemas))
    (fun p =>
       let* v := on k_key_buf_ref (DecodeKey p.2) in
       at_assign k_record_ref p.1 (any_optional (GetType p.2) v)) st.
Proof.
  revert k st. induction schemas as [|bs rest IH]; intros k st; [done|].
  rewrite imap_cons, DecodeKey_columns_cons.
  replace (Z.of_nat k + 1)%Z with (Z.of_nat (S k)) by lia.
  rewrite (imap_ext _ (fun i bs => (S k + i, bs))); last first.
  { intros i x _. simpl. f_equal. lia. }
  replace (k + 0) with k by lia.
  destruct bs as [s|]; [destruct (IsKey s) eqn:Hkey|]; cbn [omap list_omap];
    cbn [fst snd]; rewrite ?Hkey.
  - rewrite for_each_cons. cbn [fst snd].
    rewrite DecodeOrSkip_dispatch. unfold CastAndDecodeOrSkip. rewrite Hkey.
    destruct ((let* v := on k_key_buf_ref (DecodeKey s) in _) st)
      as [[[]|e] st1]; [apply IH|done].
  - apply IH.
  - apply IH.
Qed.

(** A key column dispatched by [DecodeKey], its one cursor passed twice. *)
Lemma DecodeOrSkip_key_only (s : BaseSchema) idx (st : KeyLocals) :
  IsKey s = true ->
  DecodeOrSkip s k_key_buf_ref k_key_buf_ref k_record_ref idx false st =
  match DecodeKey s (k_key_buf st) with
  | (Ok v, kb') =>
      if decide (0 <= idx < Z.of_nat (length (k_record st)))%Z
      then (Ok tt,
            {| k_key_buf := kb';
               k_record := <[Z.to_nat idx := any_optional (GetType s) v]>
                             (k_record st) |})
      else (Throw out_of_range, {| k_key_buf := kb'; k_record := k_record st |})
  | (Throw e, kb') => (Throw e, {| k_key_buf := kb'; k_record := k_record st |})
  end.
Proof.
  intros Hkey. rewrite DecodeOrSkip_dispatch. unfold CastAndDecodeOrSkip.
  rewrite Hkey. unfold bind, on, at_assign; simpl.
  destruct (DecodeKey s (k_key_buf st)) as [[v|e] kb']; [|done].
  simpl. by case_decide.
Qed.

(** What a successful pass of [DecodeKey] leaves in each output slot. *)
Lemma DecodeKey_columns_slots (schemas : Schemas) idx st st' :
  (0 <= idx)%Z ->
  DecodeKey_columns schemas idx st = (Ok tt, st') ->
  length (k_record st') = length (k_record st) /\
  forall i : nat,
    (i < Z.to_nat idx -> k_record st' !! i = k_record st !! i) /\
    (forall j, i = Z.to_nat idx + j ->
       match schemas !! j with
       | Some (Some s) =>
           if IsKey s
           then exists v, k_record st' !! i = Some (any_optional (GetType s) v)
           else k_record st' !! i = k_record st !! i
       | _ => k_record st' !! i = k_record st !! i
       end).
Proof.
  revert idx st. induction schemas as [|bs rest IH]; intros idx st Hidx Hrun.
  { simpl in Hrun. unfold ret in Hrun. simplify_eq. split; [done|].
    intros i. split; [done|]. intros j _. by rewrite lookup_nil. }
  rewrite DecodeKey_columns_cons in Hrun.
  assert (Hstay : forall st1,
            DecodeKey_columns rest (idx + 1) st1 = (Ok tt, st') ->
            k_record st1 = k_record st ->
            (forall s, bs = Some s -> IsKey s = false) ->
            length (k_record st') = length (k_record st) /\
            forall i : nat,
              (i < Z.to_nat idx -> k_record st' !! i = k_record st !! i) /\
              (forall j, i = Z.to_nat idx + j ->
                 match (bs :: rest) !! j with
                 | Some (Some s) =>
                     if IsKey s
                     then exists v, k_record st' !! i =
                                    Some (any_optional (GetType s) v)
                     else k_record st' !! i = k_record st !! i
                 | _ => k_record st' !! i = k_record st !! i
                 end)).
  { intros st1 Hrest Hrec Hbs.
    apply IH in Hrest as [Hlen Hslots]; [|lia]. rewrite Hrec in *.
    split; [done|]. intros i. split.
    - intros Hi. apply Hslots. lia.
    - intros [|j] ->.
      + simpl. destruct (Hslots (Z.to_nat idx + 0)) as [Hlt _].
        destruct bs as [s|]; [rewrite (Hbs s eq_refl)|]; apply Hlt; lia.
      + simpl. destruct (Hslots (Z.to_nat idx + S j)) as [_ Hge].
        apply Hge. lia. }
  destruct bs as [s|]; [destruct (IsKey s) eqn:Hkey|].
  - rewrite DecodeOrSkip_key_only in Hrun by done.
    destruct (DecodeKey s (k_key_buf st)) as [[v|e] kb']; [|done].
    case_decide as Hin; [|done].
    apply IH in Hrun as [Hlen Hslots]; [|lia]. simpl in *.
    rewrite length_insert in Hlen. split; [done|].
    intros i. split.
    + intros Hi. destruct (Hslots i) as [Hlt _]. rewrite Hlt by lia.
      apply list_lookup_insert_ne. lia.
    + intros [|j] ->.
      * simpl. rewrite Hkey. exists v.
        destruct (Hslots (Z.to_nat idx + 0)) as [Hlt _]. rewrite Hlt by lia.
        replace (Z.to_nat idx + 0) with (Z.to_nat idx) by lia.
        apply list_lookup_insert_eq. lia.
      * simpl. destruct (Hslots (Z.to_nat idx + S j)) as [_ Hge].
        specialize (Hge j). replace (Z.to_nat (idx + 1) + j)
          with (Z.to_nat idx + S j) in Hge by lia.
        specialize (Hge eq_refl).
        destruct (rest !! j) as [[s'|]|]; [destruct (IsKey s')|..];
          try done;
          rewrite Hge; apply list_lookup_insert_ne; lia.
  - eapply Hstay; [done..|]. by intros ? [= <-].
  - eapply Hstay; [done..|]. by intros ? [=].
Qed.

(** C5.  Key-only decode is the procedure the specification describes: the
    prefix check and the reverse-tag check, the resize to the length of the
    schema list, then every present key slot, in schema-list order, decoded
    from the key cursor into the output slot at its position in the schema
    list; [GetIndex] is not consulted.  No schema-version check is run: the
    result does not depend on the decoder's schema version.  After a
    successful call the record has the length of the schema list, the slot
    at the position of a present key column holds an optional of that
    column's type, and every other slot is as the resize left it. *)
Theorem DecodeKey_decodes_key_slots_at_their_positions
    (this : Decoder) (key : list byte) (record0 : Record_) :
  RecordDecoderV1_DecodeKey this key record0 = DecodeKey_spec this key record0 /\
  (forall v,
     RecordDecoderV1_DecodeKey (with_schema_version v this) key record0 =
     RecordDecoderV1_DecodeKey this key record0) /\
  ((RecordDecoderV1_DecodeKey this key record0).1 = Ok (-1)%Z <->
   prefix_fails this key \/ reverse_tag_fails this key) /\
  (forall record',
     RecordDecoderV1_DecodeKey this key record0 = (Ok 0%Z, record') ->
     length record' = length (schemas_ this) /\
     forall i : nat,
       match schemas_ this !! i with
       | Some (Some s) =>
           if IsKey s
           then exists v, record' !! i = Some (any_optional (GetType s) v)
           else record' !! i =
                resize (length (schemas_ this)) any_empty record0 !! i
       | _ => record' !! i =
              resize (length (schemas_ this)) any_empty record0 !! i
       end).
Proof.
  split; [|split; [|split]].
  - unfold RecordDecoderV1_DecodeKey, DecodeKey_spec, DecodeKey_body.
    unfold key_slots.
    assert (Hloop : forall st,
              DecodeKey_columns (schemas_ this) 0 st =
              for_each
                (omap (fun p : nat * option BaseSchema =>
                         match p.2 with
                         | Some s =>
                             if IsKey s then Some (Z.of_nat p.1, s) else None
                         | None => None
                         end)
                      (imap pair (schemas_ this)))
                (fun p =>
                   let* v := on k_key_buf_ref (DecodeKey p.2) in
                   at_assign k_record_ref p.1 (any_optional (GetType p.2) v))
                st).
    { intros st. apply (DecodeKey_columns_key_slots (schemas_ this) 0). }
    rewrite !bind_run.
    destruct (CheckPrefix this k_key_buf_ref _) as [[[]|e] st1]; simpl;
      [|done..].
    rewrite !bind_run.
    destruct (CheckReverseTag this k_key_buf_ref _) as [[[]|e] st2]; simpl;
      [|done..].
    rewrite !bind_run. unfold resize_record at 1 2.
    rewrite !bind_run, Hloop. done.
  - done.
  - apply DecodeKey_rejected.
  - intros record'. unfold RecordDecoderV1_DecodeKey.
    destruct (key_header_phase this key record0)
      as [(Hf & st & -> & Hr) | [(Hf & _ & e & st & -> & Hr)
         | (Hf & kb1 & kb2 & kb3 & kb4 & tag & _ & _ & _ & _ & _ & ->)]];
      [done..|].
    rewrite !bind_run. unfold resize_record at 1. rewrite bind_run.
    cbn [rd wr k_record_ref k_key_buf k_record].
    destruct (DecodeKey_columns _ _ _) as [[[]|e] st'] eqn:Hrun; [|done].
    unfold ret. intros [= <-].
    apply DecodeKey_columns_slots in Hrun as [Hlen Hslots]; [|done].
    simpl in *. rewrite length_resize in Hlen. split; [done|].
    intros i. destruct (Hslots i) as [_ Hge]. apply (Hge i). lia.
Qed.

(** *** Repeating a decode *)

Lemma Decode_columns_cons (bs : option BaseSchema) (rest : Schemas) st :
  Decode_columns (bs :: rest) st =
  match match bs with
        | Some s => DecodeOrSkip s key_buf_ref value_buf_ref record_ref
                                 (GetIndex s) false st
        | None => (Ok tt, st)
        end with
  | (Ok _, s') => Decode_columns rest s'
  | (Throw e, s') => (Throw e, s')
  end.
Proof. unfold Decode_columns. rewrite for_each_cons. by destruct bs. Qed.

(** The column pass on two records of one length, from the same cursors:
    same outcome, same cursors, and each slot is either written with the
    same value in both or left alone in both. *)
Lemma Decode_columns_two_records (schemas : Schemas) (st1 st2 : Locals) :
  key_buf st1 = key_buf st2 ->
  value_buf st1 = value_buf st2 ->
  length (record st1) = length (record st2) ->
  (Decode_columns schemas st1).1 = (Decode_columns schemas st2).1 /\
  key_buf (Decode_columns schemas st1).2 =
    key_buf (Decode_columns schemas st2).2 /\
  value_buf (Decode_columns schemas st1).2 =
    value_buf (Decode_columns schemas st2).2 /\
  length (record (Decode_columns schemas st1).2) = length (record st1) /\
  length (record (Decode_columns schemas st2).2) = length (record st2) /\
  forall i : nat,
    record (Decode_columns schemas st1).2 !! i =
      record (Decode_columns schemas st2).2 !! i \/
    (record (Decode_columns schemas st1).2 !! i = record st1 !! i /\
     record (Decode_columns schemas st2).2 !! i = record st2 !! i).
Proof.
  revert st1 st2. induction schemas as [|bs rest IH];
    intros st1 st2 Hk Hv Hlen.
  { simpl. auto 10. }
  rewrite !Decode_columns_cons.
  destruct bs as [s|]; [|by apply IH].
  rewrite !DecodeOrSkip_decode, <- Hk, <- Hv.
  destruct (decode_col s (key_buf st1) (value_buf st1))
    as [[v|e] [kb' vb']]; [|simpl; auto 10].
  unfold at_assign. cbn [rd wr record_ref record key_buf value_buf].
  rewrite <- Hlen.
  case_decide as Hin; [|simpl; auto 10].
  destruct (IH {| key_buf := kb'; value_buf := vb';
                  record := <[Z.to_nat (GetIndex s):=v]> (record st1) |}
               {| key_buf := kb'; value_buf := vb';
                  record := <[Z.to_nat (GetIndex s):=v]> (record st2) |})
    as (Ho & Hkb & Hvb & Hl1 & Hl2 & Hslots);
    [done|done|simpl; by rewrite !length_insert|].
  cbn [record] in *. rewrite length_insert in Hl1, Hl2.
  split; [done|]. split; [done|]. split; [done|]. split; [done|].
  split; [congruence|].
  intros i. destruct (Hslots i) as [Heq|[H1 H2]]; [by left|].
  destruct (decide (i = Z.to_nat (GetIndex s))) as [->|Hne].
  - left. rewrite H1, H2.
    rewrite !list_lookup_insert_eq by lia. done.
  - right. rewrite H1, H2.
    rewrite !list_lookup_insert_ne by done. done.
Qed.

Lemma after_headers_run (this : Decoder) key value record0 (k : M Locals Z) :
  after_headers this k
    {| key_buf := Buf_new key (le_ this);
       value_buf := Buf_new value (le_ this); record := record0 |} =
  match header_checks this key value with
  | (Ok true, (kb, vb)) =>
      k {| key_buf := kb; value_buf := vb; record := record0 |}
  | (Ok false, (kb, vb)) =>
      (Ok (-1)%Z, {| key_buf := kb; value_buf := vb; record := record0 |})
  | (Throw e, (kb, vb)) =>
      (Throw e, {| key_buf := kb; value_buf := vb; record := record0 |})
  end.
Proof.
  unfold after_headers, header_checks, CheckPrefix, CheckReverseTag,
    CheckSchemaVersion.
  unfold bind, on, ret; simpl.
  destruct (Skip 1 (Buf_new key (le_ this))) as [[[]|e1] kb1]; simpl; [|done].
  destruct (ReadLong kb1) as [[id|e2] kb2]; simpl; [|done].
  destruct (id =? common_id_ this)%Z; simpl; [|done].
  destruct (ReverseRead kb2) as [[tag|e3] kb3]; simpl; [|done].
  destruct (tag <=? codec_version_ this)%Z; simpl; [|done].
  destruct (ReverseSkip 3 kb3) as [[[]|e4] kb4]; simpl; [|done].
  destruct (ReadInt (Buf_new value (le_ this))) as [[version|e5] vb1]; simpl;
    [|done].
  by destruct (version <=? schema_version_ this)%Z.
Qed.

(** What [Decode] does once the checks have passed. *)
Lemma full_tail_run (schemas : Schemas) (st : Locals) :
  (resize_record record_ref (length schemas) ;;;
   Decode_columns schemas ;;; ret 0%Z) st =
  match Decode_columns schemas
          {| key_buf := key_buf st; value_buf := value_buf st;
             record := resize (length schemas) any_empty (record st) |} with
  | (Ok _, s') => (Ok 0%Z, s')
  | (Throw e, s') => (Throw e, s')
  end.
Proof. reflexivity. Qed.

(** Decoding again into the record a first decode filled changes
    nothing. *)
Lemma Decode_again (this : Decoder) key value record0 :
  Decode this key value (Decode this key value record0).2 =
  Decode this key value record0.
Proof.
  unfold Decode. rewrite Decode_body_after_headers, !after_headers_run.
  destruct (header_checks this key value) as [[[|]|e] [kb vb]]; [|done..].
  rewrite !full_tail_run. cbn [record key_buf value_buf].
  set (st1 := {| key_buf := kb; value_buf := vb;
                 record := resize (length (schemas_ this)) any_empty
                             record0 |}).
  assert (Hfirst :
            (let (r, s) := match Decode_columns (schemas_ this) st1 with
                           | (Ok _, s') => (Ok 0%Z, s')
                           | (Throw e, s') => (Throw e, s')
                           end in (r, record s)).2 =
            record (Decode_columns (schemas_ this) st1).2).
  { by destruct (Decode_columns (schemas_ this) st1) as [[[]|e] st']. }
  rewrite Hfirst. clear Hfirst.
  set (rec1 := record (Decode_columns (schemas_ this) st1).2).
  set (st2 := {| key_buf := kb; value_buf := vb;
                 record := resize (length (schemas_ this)) any_empty
                             rec1 |}).
  destruct (Decode_columns_two_records (schemas_ this) st1 st2)
    as (Ho & Hkb & Hvb & Hl1 & Hl2 & Hslots); [done|done| |].
  { simpl. by rewrite !length_resize. }
  assert (Hst2 : record st2 = rec1).
  { simpl. apply resize_all_alt. subst rec1. rewrite Hl1. simpl.
    by rewrite length_resize. }
  assert (Hsame : record (Decode_columns (schemas_ this) st2).2 = rec1).
  { apply list_eq. intros i.
    destruct (Hslots i) as [Heq|[H1 H2]]; [by rewrite <- Heq|].
    by rewrite H2, Hst2. }
  subst rec1.
  destruct (Decode_columns (schemas_ this) st1) as [[[]|e1] st1'];
    destruct (Decode_columns (schemas_ this) st2) as [[[]|e2] st2'];
    simpl in *; simplify_eq; congruence.
Qed.

(** C8.  Full decode is a function of the decoder and the two byte
    strings: two calls by the same caller return the same status and leave
    the same record, also when the second call is handed the record the
    first one filled; neither call changes the decoder (schema version,
    schema list, table identifier, endianness) or the byte strings; the
    status does not depend on what the record held. *)
Theorem decoding_twice_gives_the_same_record (w : Caller) :
  let first := call_Decode w in
  let second := call_Decode first.2 in
  second.1 = first.1 /\
  output second.2 = output first.2 /\
  decoder second.2 = decoder w /\ decoder first.2 = decoder w /\
  key_bytes second.2 = key_bytes w /\ key_bytes first.2 = key_bytes w /\
  value_bytes second.2 = value_bytes w /\ value_bytes first.2 = value_bytes w /\
  (forall record1 record2,
     length record1 = length record2 ->
     (Decode (decoder w) (key_bytes w) (value_bytes w) record1).1 =
     (Decode (decoder w) (key_bytes w) (value_bytes w) record2).1).
Proof.
  destruct w as [this key value record0]. unfold call_Decode. simpl.
  pose proof (Decode_again this key value record0) as Hagain.
  destruct (Decode this key value record0) as [status record1] eqn:Hfirst.
  simpl in *. rewrite Hagain. simpl.
  repeat (split; [done|]).
  intros r1 r2 Hlen. unfold Decode.
  rewrite Decode_body_after_headers, !after_headers_run.
  destruct (header_checks this key value) as [[[|]|e] [kb vb]]; [|done..].
  rewrite !full_tail_run. cbn [record key_buf value_buf].
  destruct (Decode_columns_two_records (schemas_ this)
              {| key_buf := kb; value_buf := vb;
                 record := resize (length (schemas_ this)) any_empty r1 |}
              {| key_buf := kb; value_buf := vb;
                 record := resize (length (schemas_ this)) any_empty r2 |})
    as (Ho & _); [done|done|simpl; by rewrite !length_resize|].
  destruct (Decode_columns (schemas_ this) _) as [[[]|e1] st1'];
    destruct (Decode_columns (schemas_ this) _) as [[[]|e2] st2'];
    simpl in *; by simplify_eq.
Qed.

(** *** The sorted plan of a projection *)

Global Instance pair_le_transitive : Transitive pair_le.
Proof. intros [a1 a2] [b1 b2] [c1 c2]. unfold pair_le, pair_lt. simpl. lia. Qed.

Global Instance pair_le_total : Total pair_le.
Proof. intros [a1 a2] [b1 b2]. unfold pair_le, pair_lt. simpl. lia. Qed.

Lemma StronglySorted_lookup_lt {A} (R : relation A) (l : list A) i j x y :
  StronglySorted R l -> i < j -> l !! i = Some x -> l !! j = Some y -> R x y.
Proof.
  intros Hs. revert i j. induction Hs as [|a l Hs IH Hall]; intros i j Hij Hi Hj.
  { by rewrite lookup_nil in Hi. }
  destruct j as [|j]; [lia|]. simpl in Hj.
  destruct i as [|i]; simpl in Hi.
  - simplify_eq. rewrite Forall_forall in Hall. apply Hall.
    by eapply list_elem_of_lookup_2.
  - eapply (IH i j); [lia|done..].
Qed.

Lemma col_index_mapping_Permutation (column_indexes : list Z) :
  col_index_mapping column_indexes ≡ₚ
  imap (fun i c => (c, Z.of_nat i)) column_indexes.
Proof. apply merge_sort_Permutation. Qed.

Lemma col_index_mapping_length (column_indexes : list Z) :
  length (col_index_mapping column_indexes) = length column_indexes.
Proof.
  rewrite (Permutation_length (col_index_mapping_Permutation _)).
  apply length_imap.
Qed.

Lemma col_index_mapping_sorted (column_indexes : list Z) :
  StronglySorted pair_le (col_index_mapping column_indexes).
Proof. apply StronglySorted_merge_sort; apply _. Qed.

(** The plan holds exactly the pairs (requested position, output slot). *)
Lemma col_index_mapping_elem (column_indexes : list Z) (a : Z * Z) :
  a ∈ col_index_mapping column_indexes <->
  exists i : nat, column_indexes !! i = Some a.1 /\ a.2 = Z.of_nat i.
Proof.
  rewrite (col_index_mapping_Permutation column_indexes).
  rewrite list_elem_of_lookup. split.
  - intros [i Hi]. rewrite list_lookup_imap in Hi.
    destruct (column_indexes !! i) as [c|] eqn:Hc; simplify_eq/=. eauto.
  - intros [i [Hc Hi]]. exists i. rewrite list_lookup_imap, Hc.
    destruct a; simpl in *; by subst.
Qed.

Lemma col_index_mapping_snd_NoDup (column_indexes : list Z) :
  NoDup (snd <$> col_index_mapping column_indexes).
Proof.
  rewrite (col_index_mapping_Permutation column_indexes).
  rewrite fmap_imap.
  rewrite (imap_ext _ (fun i _ => Z.of_nat i)) by done.
  rewrite imap_seq_0. apply NoDup_fmap_2; [apply _|apply NoDup_seq].
Qed.

Lemma col_index_mapping_fst_NoDup (column_indexes : list Z) :
  NoDup column_indexes -> NoDup (fst <$> col_index_mapping column_indexes).
Proof.
  intros Hnd. rewrite (col_index_mapping_Permutation column_indexes).
  rewrite fmap_imap.
  replace (imap (fun n => fst ∘ (fun c : Z => (c, Z.of_nat n))) column_indexes)
    with column_indexes; [done|].
  apply list_eq. intros i. rewrite list_lookup_imap.
  by destruct (column_indexes !! i).
Qed.

(** With distinct positions the plan is strictly increasing in them. *)
Lemma col_index_mapping_increasing (column_indexes : list Z) :
  NoDup column_indexes ->
  StronglySorted (fun a b : Z * Z => (a.1 < b.1)%Z)
                 (col_index_mapping column_indexes).
Proof.
  intros Hnd. apply col_index_mapping_fst_NoDup in Hnd.
  pose proof (col_index_mapping_sorted column_indexes) as Hs.
  induction Hs as [|a l Hs IH Hall]; [constructor|].
  rewrite fmap_cons in Hnd. apply NoDup_cons in Hnd as [Hnotin Hnd].
  constructor; [by apply IH|].
  rewrite Forall_forall in Hall |- *. intros b Hb.
  specialize (Hall b Hb). unfold pair_le, pair_lt in Hall.
  assert (a.1 <> b.1); [|lia].
  intros Heq. apply Hnotin. rewrite Heq. by apply list_elem_of_fmap_2.
Qed.

(** *** What the pass of projected decode writes *)

(** One present slot of the pass, with the dispatch spelled out. *)
Lemma projected_columns_present size mapping (s : BaseSchema) (rest : Schemas)
    n m ri (st : Locals) :
  size <> n ->
  Decode_projected_columns size mapping (Some s :: rest) n m ri st =
  let a := nth (Z.to_nat n) mapping (0, 0)%Z in
  if (a.1 =? m)%Z then
    match decode_col s (key_buf st) (value_buf st) with
    | (Ok v, (kb', vb')) =>
        if decide (0 <= a.2 < Z.of_nat (length (record st)))%Z
        then Decode_projected_columns size mapping rest (n + 1) (m + 1) a.2
               {| key_buf := kb'; value_buf := vb';
                  record := <[Z.to_nat a.2 := v]> (record st) |}
        else (Throw out_of_range,
              {| key_buf := kb'; value_buf := vb'; record := record st |})
    | (Throw e, (kb', vb')) =>
        (Throw e, {| key_buf := kb'; value_buf := vb'; record := record st |})
    end
  else
    match skip_col s (key_buf st) (value_buf st) with
    | (Ok _, (kb', vb')) =>
        Decode_projected_columns size mapping rest n (m + 1) ri
          {| key_buf := kb'; value_buf := vb'; record := record st |}
    | (Throw e, (kb', vb')) =>
        (Throw e, {| key_buf := kb'; value_buf := vb'; record := record st |})
    end.
Proof.
  intros Hn. simpl. apply Z.eqb_neq in Hn. rewrite Hn. unfold IsSkipOnly.
  destruct (_ =? m)%Z; rewrite bind_run.
  - rewrite DecodeOrSkip_decode.
    destruct (decode_col s (key_buf st) (value_buf st)) as [[v|e] [kb' vb']];
      [|done].
    unfold at_assign. simpl. by case_decide.
  - rewrite DecodeOrSkip_skip.
    by destruct (skip_col s (key_buf st) (value_buf st)) as [[[]|e] [kb' vb']].
Qed.

(** The requests [n .. n' - 1] that a pass satisfied: their positions are
    the values the position counter had, so they increase strictly; only
    their output slots are written; and a pass that ends with requests
    left has run through the whole schema list. *)
Lemma projected_pass_frame size mapping (schemas : Schemas) n m ri
    (st : Locals) r n' m' ri' st' :
  (0 <= n)%Z ->
  Decode_projected_columns size mapping schemas n m ri st =
  (Ok (r, (n', m', ri')), st') ->
  let req j := nth (Z.to_nat j) mapping (0, 0)%Z in
  (n <= n')%Z /\ (m <= m' <= m + present_count schemas)%Z /\
  length (record st') = length (record st) /\
  (forall j, (n <= j < n')%Z -> (m <= (req j).1 < m')%Z) /\
  (forall j j', (n <= j)%Z -> (j < j')%Z -> (j' < n')%Z ->
                ((req j).1 < (req j').1)%Z) /\
  (forall i : nat,
     (forall j, (n <= j < n')%Z -> Z.to_nat (req j).2 <> i) ->
     record st' !! i = record st !! i) /\
  (n' <> size -> r = None /\ m' = (m + present_count schemas)%Z) /\
  ((n <= size)%Z -> (n' <= size)%Z).
Proof.
  intros Hn Hrun req. revert n m ri st Hn Hrun.
  unfold present_count.
  induction schemas as [|bs rest IH]; intros n m ri st Hn Hrun.
  { simpl in Hrun. unfold ret in Hrun. simplify_eq. simpl.
    repeat split; try lia; try done. }
  destruct (decide (size = n)) as [->|Hsize].
  { simpl in Hrun. rewrite Z.eqb_refl in Hrun. unfold ret in Hrun.
    simplify_eq. repeat split; try lia; try done. }
  destruct bs as [s|].
  2:{ simpl in Hrun. apply Z.eqb_neq in Hsize. rewrite Hsize in Hrun.
      by apply IH in Hrun. }
  rewrite projected_columns_present in Hrun by done.
  cbv zeta in Hrun. fold (req n) in Hrun.
  assert (Hcnt : Z.of_nat (length (omap id (Some s :: rest))) =
                 (1 + Z.of_nat (length (omap id rest)))%Z)
    by (change (omap id (Some s :: rest)) with (s :: omap id rest);
        rewrite length_cons; lia).
  rewrite Hcnt. clear Hcnt.
  destruct ((req n).1 =? m)%Z eqn:Hmatch.
  - apply Z.eqb_eq in Hmatch.
    destruct (decode_col s (key_buf st) (value_buf st)) as [[v|e] [kb' vb']];
      [|done].
    case_decide as Hin; [|done].
    apply IH in Hrun as (Hn' & Hm' & Hlen & Hpos & Hinc & Hframe & Hend & Hle);
      [|lia].
    simpl in Hlen, Hframe. rewrite length_insert in Hlen.
    split; [lia|]. split; [lia|]. split; [done|].
    split; [|split; [|split; [|split; [|lia]]]].
    + intros j Hj. destruct (decide (j = n)) as [->|]; [lia|].
      specialize (Hpos j). lia.
    + intros j j' Hj Hjj' Hj'. destruct (decide (j = n)) as [->|].
      * specialize (Hpos j'). lia.
      * apply Hinc; lia.
    + intros i Hi. rewrite Hframe.
      * apply list_lookup_insert_ne. apply Hi. lia.
      * intros j Hj. apply Hi. lia.
    + intros Hne. destruct (Hend Hne) as [-> ->]. split; [done|lia].
  - apply Z.eqb_neq in Hmatch.
    destruct (skip_col s (key_buf st) (value_buf st)) as [[[]|e] [kb' vb']];
      [|done].
    apply IH in Hrun as (Hn' & Hm' & Hlen & Hpos & Hinc & Hframe & Hend & Hle);
      [|lia].
    simpl in Hlen, Hframe.
    split; [lia|]. split; [lia|]. split; [done|].
    split; [|split; [|split; [|split; [|lia]]]].
    + intros j Hj. specialize (Hpos j). lia.
    + done.
    + done.
    + intros Hne. destruct (Hend Hne) as [-> ->]. split; [done|lia].
Qed.

Lemma headers_pass_checks (this : Decoder) key value :
  headers_pass this key value ->
  exists kb vb, header_checks this key value = (Ok true, (kb, vb)).
Proof.
  intros (kb1 & kb2 & kb3 & kb4 & tag & ver & vb1 & E1 & E2 & E3 & Htag & E4
          & E5 & Hver).
  unfold header_checks. rewrite E1, E2, Z.eqb_refl. simpl. rewrite E3.
  apply Z.leb_le in Htag, Hver. rewrite Htag. simpl. rewrite E4, E5, Hver.
  eauto.
Qed.

(** What projected [Decode] does once the checks have passed. *)
Lemma projected_tail_run (schemas : Schemas) column_indexes (st : Locals) :
  (resize_record record_ref (length column_indexes) ;;;
   let* r := Decode_projected_columns (Z.of_nat (length column_indexes))
               (col_index_mapping column_indexes) schemas 0%Z 0%Z 0%Z in
   match r.1 with
   | Some status => ret status
   | None => ret 0%Z
   end) st =
  match Decode_projected_columns (Z.of_nat (length column_indexes))
          (col_index_mapping column_indexes) schemas 0%Z 0%Z 0%Z
          {| key_buf := key_buf st; value_buf := value_buf st;
             record := resize (length column_indexes) any_empty (record st) |}
  with
  | (Ok r, s') => (Ok (exit_status r.1), s')
  | (Throw e, s') => (Throw e, s')
  end.
Proof.
  rewrite bind_run. unfold resize_record. cbn [rd wr record_ref].
  rewrite bind_run.
  destruct (Decode_projected_columns _ _ _ _ _ _ _) as [[[[r|] cnt]|e] s'];
    done.
Qed.

(** The request of output slot [i] sits somewhere in the plan, and nowhere
    else. *)
Lemma request_index (column_indexes : list Z) (i : nat) c :
  column_indexes !! i = Some c ->
  exists j : nat, col_index_mapping column_indexes !! j = Some (c, Z.of_nat i).
Proof.
  intros Hi. apply list_elem_of_lookup_1, col_index_mapping_elem. eauto.
Qed.

Lemma request_unique (column_indexes : list Z) (j j' : nat) (a a' : Z * Z) :
  col_index_mapping column_indexes !! j = Some a ->
  col_index_mapping column_indexes !! j' = Some a' ->
  a.2 = a'.2 -> j = j'.
Proof.
  intros Hj Hj' Heq.
  eapply (NoDup_lookup _ j j' a.2 (col_index_mapping_snd_NoDup column_indexes)).
  - by rewrite list_lookup_fmap, Hj.
  - rewrite list_lookup_fmap, Hj'. simpl. by rewrite Heq.
Qed.

Lemma request_slot (column_indexes : list Z) (j : nat) (a : Z * Z) :
  col_index_mapping column_indexes !! j = Some a ->
  exists i : nat, column_indexes !! i = Some a.1 /\ a.2 = Z.of_nat i.
Proof.
  intros Hj. apply col_index_mapping_elem. by eapply list_elem_of_lookup_2.
Qed.

(** The request at place [j] of the plan was either satisfied, and then
    its position is that of a present slot and larger than every position
    before it in the plan, or its output slot is as the pass found it. *)
Lemma satisfied_or_untouched (column_indexes : list Z) (schemas : Schemas)
    (st st' : Locals) r n' m' ri' (i j : nat) c :
  Decode_projected_columns (Z.of_nat (length column_indexes))
    (col_index_mapping column_indexes) schemas 0 0 0 st =
  (Ok (r, (n', m', ri')), st') ->
  col_index_mapping column_indexes !! j = Some (c, Z.of_nat i) ->
  ((0 <= c < present_count schemas)%Z /\
   forall (j0 : nat) a, j0 < j ->
     col_index_mapping column_indexes !! j0 = Some a -> (a.1 < c)%Z) \/
  record st' !! i = record st !! i.
Proof.
  intros Hrun Hj.
  apply projected_pass_frame in Hrun
    as (Hn' & Hm' & Hlen & Hpos & Hinc & Hframe & Hend & Hle); [|done].
  specialize (Hle ltac:(lia)).
  assert (Hreq : forall j0 a,
            col_index_mapping column_indexes !! j0 = Some a ->
            nth (Z.to_nat (Z.of_nat j0)) (col_index_mapping column_indexes)
                (0, 0)%Z = a).
  { intros j0 a Ha. by rewrite Nat2Z.id, nth_lookup, Ha. }
  destruct (decide (Z.of_nat j < n')%Z) as [Hlt|Hge].
  - left. split.
    + specialize (Hpos (Z.of_nat j) ltac:(lia)).
      rewrite (Hreq j _ Hj) in Hpos. simpl in Hpos. lia.
    + intros j0 a Hj0 Ha.
      specialize (Hinc (Z.of_nat j0) (Z.of_nat j) ltac:(lia) ltac:(lia) Hlt).
      by rewrite (Hreq j0 _ Ha), (Hreq j _ Hj) in Hinc.
  - right. apply Hframe. intros j0 Hj0 Heq.
    assert (Hj0' : Z.to_nat j0 < length (col_index_mapping column_indexes)).
    { rewrite col_index_mapping_length. lia. }
    apply lookup_lt_is_Some_2 in Hj0' as [a Ha].
    pose proof (Hreq _ _ Ha) as Hnth. rewrite Nat2Z.id in Hnth.
    rewrite Hnth in Heq.
    destruct (request_slot _ _ _ Ha) as (i0 & _ & Hi0).
    assert (Z.to_nat j0 = j); [|lia].
    eapply request_unique; [done..|]. simpl. lia.
Qed.

(** Two places of the plan: the earlier one holds the smaller position,
    or the same position and the smaller output slot. *)
Lemma plan_order (column_indexes : list Z) (j1 j2 : nat) (a b : Z * Z) :
  j1 < j2 ->
  col_index_mapping column_indexes !! j1 = Some a ->
  col_index_mapping column_indexes !! j2 = Some b ->
  (a.1 < b.1 \/ (a.1 = b.1 /\ a.2 < b.2))%Z.
Proof.
  intros Hlt Ha Hb.
  pose proof (StronglySorted_lookup_lt _ _ j1 j2 a b
                (col_index_mapping_sorted column_indexes) Hlt Ha Hb) as Hle.
  assert (a.2 <> b.2).
  { intros Heq. pose proof (request_unique _ _ _ _ _ Ha Hb Heq). lia. }
  unfold pair_le, pair_lt in Hle. lia.
Qed.

Lemma plan_place_le (column_indexes : list Z) (j0 j i0 i : nat) (c0 c : Z) :
  col_index_mapping column_indexes !! j0 = Some (c0, Z.of_nat i0) ->
  col_index_mapping column_indexes !! j = Some (c, Z.of_nat i) ->
  (c0 < c)%Z \/ (c0 = c /\ i0 <= i) ->
  j0 <= j.
Proof.
  intros Hj0 Hj Hord.
  destruct (decide (j0 <= j)) as [|Hgt]; [done|]. exfalso.
  pose proof (plan_order _ j j0 _ _ ltac:(lia) Hj Hj0) as Hlt.
  simpl in Hlt. lia.
Qed.

(** The request a pass ends on, when requests are left: the position
    counter never equalled its position while the pass waited for it.  If
    the pass met no request, that is from the start of the pass on;
    otherwise from the position of the last request met on. *)
Lemma projected_pass_stuck size mapping (schemas : Schemas) n m ri
    (st : Locals) r n' m' ri' st' :
  (0 <= n)%Z ->
  Decode_projected_columns size mapping schemas n m ri st =
  (Ok (r, (n', m', ri')), st') ->
  n' <> size ->
  let req j := nth (Z.to_nat j) mapping (0, 0)%Z in
  (n' = n -> ~ (m <= (req n').1 < m + present_count schemas)%Z) /\
  ((n < n')%Z ->
   ~ ((req (n' - 1)%Z).1 < (req n').1 < m + present_count schemas)%Z).
Proof.
  intros Hn Hrun Hne req. revert n m ri st Hn Hrun.
  unfold present_count.
  induction schemas as [|bs rest IH]; intros n m ri st Hn Hrun.
  { simpl in Hrun. unfold ret in Hrun. simplify_eq. simpl. split; lia. }
  destruct (decide (size = n)) as [->|Hsize].
  { simpl in Hrun. rewrite Z.eqb_refl in Hrun. unfold ret in Hrun.
    by simplify_eq. }
  destruct bs as [s|].
  2:{ simpl in Hrun. apply Z.eqb_neq in Hsize. rewrite Hsize in Hrun.
      by apply IH in Hrun. }
  rewrite projected_columns_present in Hrun by done.
  cbv zeta in Hrun. fold (req n) in Hrun.
  assert (Hcnt : Z.of_nat (length (omap id (Some s :: rest))) =
                 (1 + Z.of_nat (length (omap id rest)))%Z)
    by (change (omap id (Some s :: rest)) with (s :: omap id rest);
        rewrite length_cons; lia).
  rewrite Hcnt. clear Hcnt.
  destruct ((req n).1 =? m)%Z eqn:Hmatch.
  - apply Z.eqb_eq in Hmatch.
    destruct (decode_col s (key_buf st) (value_buf st)) as [[v|e] [kb' vb']];
      [|done].
    case_decide as Hin; [|done].
    assert (Hn' : (n + 1 <= n')%Z).
    { pose proof Hrun as Hrun'.
      apply projected_pass_frame in Hrun' as (Hge & _); [done|lia]. }
    apply IH in Hrun as [Hsame Hlater]; [|lia].
    split; [lia|]. intros _.
    destruct (decide (n' = n + 1)%Z) as [->|].
    + replace (n + 1 - 1)%Z with n by lia. specialize (Hsame eq_refl). lia.
    + specialize (Hlater ltac:(lia)). lia.
  - apply Z.eqb_neq in Hmatch.
    destruct (skip_col s (key_buf st) (value_buf st)) as [[[]|e] [kb' vb']];
      [|done].
    apply IH in Hrun as [Hsame Hlater]; [|lia].
    split.
    + intros ->. specialize (Hsame eq_refl). lia.
    + intros Hlt. specialize (Hlater Hlt). lia.
Qed.

(** The requests a pass over the plan leaves unmet are exactly those that
    are never matched: the pass ends with its request counter at or before
    the place of a request if and only if a request ordered at or before
    it is out of range or repeats a position. *)
Lemma unmet_iff_never_matched (column_indexes : list Z) (schemas : Schemas)
    (st st' : Locals) r n' m' ri' (j i : nat) c :
  Decode_projected_columns (Z.of_nat (length column_indexes))
    (col_index_mapping column_indexes) schemas 0 0 0 st =
  (Ok (r, (n', m', ri')), st') ->
  col_index_mapping column_indexes !! j = Some (c, Z.of_nat i) ->
  (n' <= Z.of_nat j)%Z <-> never_matched schemas column_indexes i.
Proof.
  intros Hrun Hj.
  pose proof (projected_pass_frame _ _ _ 0%Z _ _ _ _ _ _ _ _
                ltac:(done) Hrun)
    as (Hn' & Hm' & _ & Hpos & Hinc & _ & Hend & _).
  assert (Hreq : forall j0 a,
            col_index_mapping column_indexes !! j0 = Some a ->
            nth (Z.to_nat (Z.of_nat j0)) (col_index_mapping column_indexes)
                (0, 0)%Z = a).
  { intros j0 a Ha. by rewrite Nat2Z.id, nth_lookup, Ha. }
  destruct (request_slot _ _ _ Hj) as (i' & Hi & Hi').
  simpl in Hi, Hi'. apply Nat2Z.inj in Hi'. subst i'.
  pose proof (lookup_lt_Some _ _ _ Hj) as Hjlen.
  rewrite col_index_mapping_length in Hjlen.
  split.
  - intros Hunmet.
    assert (Hne : n' <> Z.of_nat (length column_indexes)) by lia.
    pose proof (projected_pass_stuck _ _ _ 0%Z _ _ _ _ _ _ _ _
                  ltac:(done) Hrun Hne) as [Hfirst Hlater].
    cbv zeta in Hfirst, Hlater.
    assert (Hlen : Z.to_nat n' < length (col_index_mapping column_indexes)).
    { rewrite col_index_mapping_length. lia. }
    apply lookup_lt_is_Some_2 in Hlen as [[c0 s0] Ha].
    destruct (request_slot _ _ _ Ha) as (i0 & Hi0 & Hs0).
    simpl in Hi0, Hs0. subst s0.
    pose proof (Hreq _ _ Ha) as Hnth. rewrite Z2Nat.id in Hnth by lia.
    rewrite Hnth in Hfirst, Hlater. simpl in Hfirst, Hlater.
    assert (Hord : (c0 < c)%Z \/ (c0 = c /\ i0 <= i)).
    { destruct (decide (Z.to_nat n' = j)) as [Heq|Hlt].
      - rewrite Heq in Ha. rewrite Ha in Hj. simplify_eq. right. split; lia.
      - pose proof (plan_order _ (Z.to_nat n') j _ _ ltac:(lia) Ha Hj) as Hlt'.
        simpl in Hlt'. lia. }
    exists c, i0, c0. split; [done|]. split; [done|]. split; [done|].
    destruct (decide (n' = 0%Z)) as [Hzero|Hpos0].
    + left. specialize (Hfirst Hzero). lia.
    + specialize (Hlater ltac:(lia)).
      assert (Hlen : Z.to_nat (n' - 1) <
                     length (col_index_mapping column_indexes)).
      { rewrite col_index_mapping_length. lia. }
      apply lookup_lt_is_Some_2 in Hlen as [[c1 s1] Hb].
      destruct (request_slot _ _ _ Hb) as (i1 & Hi1 & Hs1).
      simpl in Hi1, Hs1. subst s1.
      pose proof (Hreq _ _ Hb) as Hnth'. rewrite Z2Nat.id in Hnth' by lia.
      rewrite Hnth' in Hlater. simpl in Hlater.
      pose proof (plan_order _ (Z.to_nat (n' - 1)) (Z.to_nat n') _ _
                    ltac:(lia) Hb Ha) as Hlt'.
      simpl in Hlt'.
      destruct (decide (c1 = c0)) as [->|Hdiff].
      * right. exists i1. split; [lia|done].
      * left. lia.
  - intros (c' & i0 & c0 & Hi2 & Hi0 & Hord & Hwhy).
    rewrite Hi in Hi2. injection Hi2 as <-.
    destruct (decide (n' <= Z.of_nat j)%Z) as [|Hmet]; [done|]. exfalso.
    destruct (request_index _ _ _ Hi0) as [j0 Hj0].
    pose proof (plan_place_le _ _ _ _ _ _ _ Hj0 Hj Hord) as Hle.
    destruct Hwhy as [Hout|(i1 & Hlt & Hi1)].
    + specialize (Hpos (Z.of_nat j0) ltac:(lia)).
      rewrite (Hreq _ _ Hj0) in Hpos. simpl in Hpos. lia.
    + destruct (request_index _ _ _ Hi1) as [j1 Hj1].
      pose proof (plan_place_le _ j1 j0 i1 i0 c0 c0 Hj1 Hj0
                    ltac:(right; split; [done|lia])) as Hle1.
      assert (j1 <> j0).
      { intros ->. rewrite Hj1 in Hj0. simplify_eq. lia. }
      specialize (Hinc (Z.of_nat j1) (Z.of_nat j0) ltac:(lia) ltac:(lia)
                       ltac:(lia)).
      rewrite (Hreq _ _ Hj1), (Hreq _ _ Hj0) in Hinc. simpl in Hinc. lia.
Qed.

(** The output slot of a request the pass left unmet is as the pass found
    it. *)
Lemma unmet_untouched (column_indexes : list Z) (schemas : Schemas)
    (st st' : Locals) r n' m' ri' (j i : nat) c :
  Decode_projected_columns (Z.of_nat (length column_indexes))
    (col_index_mapping column_indexes) schemas 0 0 0 st =
  (Ok (r, (n', m', ri')), st') ->
  col_index_mapping column_indexes !! j = Some (c, Z.of_nat i) ->
  (n' <= Z.of_nat j)%Z ->
  record st' !! i = record st !! i.
Proof.
  intros Hrun Hj Hunmet.
  apply projected_pass_frame in Hrun
    as (Hn' & _ & _ & _ & _ & Hframe & _ & Hle); [|done].
  specialize (Hle ltac:(lia)).
  apply Hframe. intros j0 Hj0 Heq.
  assert (Hj0' : Z.to_nat j0 < length (col_index_mapping column_indexes)).
  { rewrite col_index_mapping_length. lia. }
  apply lookup_lt_is_Some_2 in Hj0' as [a Ha].
  rewrite nth_lookup, Ha in Heq. simpl in Heq.
  destruct (request_slot _ _ _ Ha) as (i0 & _ & Hi0).
  assert (Z.to_nat j0 = j); [|lia].
  eapply request_unique; [done..|]. simpl. lia.
Qed.

(** C10.  With valid headers, a projection holding a request that the
    position counter never meets does not make projected decode fail: a
    call that returns (no collaborator threw) returns 0, with a record of
    the projection's length.  The output slot of every request that is
    never matched is never written: it holds what the resize left there,
    the default empty value wherever the caller's record was shorter.  A
    request is never matched when it, or a request the plan orders before
    it, asks for a position that is no present slot or repeats the position
    of a request with a lower output slot; in particular a request for a
    position outside the present slots, and the later of two requests for
    one position.  These are all the unmatched requests: a pass over the
    plan ends with its request counter at or before the place of a request
    exactly when the request is never matched in this sense.  A pass that
    ends with a request unmet has run through the whole schema list, its
    position counter having counted every present slot. *)
Theorem unmatched_requests_leave_their_slots_unwritten
    (this : Decoder) (key value : list byte) (column_indexes : list Z)
    (record0 record' : Record_) (status : Z) :
  headers_pass this key value ->
  Decode_projected this key value column_indexes record0 =
  (Ok status, record') ->
  status = 0%Z /\
  length record' = length column_indexes /\
  (forall i : nat,
     never_matched (schemas_ this) column_indexes i ->
     record' !! i = resize (length column_indexes) any_empty record0 !! i /\
     (length record0 <= i -> record' !! i = Some any_empty)) /\
  (forall (i : nat) c,
     column_indexes !! i = Some c ->
     ~ (0 <= c < present_count (schemas_ this))%Z ->
     record' !! i = resize (length column_indexes) any_empty record0 !! i /\
     (length record0 <= i -> record' !! i = Some any_empty)) /\
  (forall (i1 i2 : nat) c,
     i1 < i2 ->
     column_indexes !! i1 = Some c ->
     column_indexes !! i2 = Some c ->
     record' !! i2 = resize (length column_indexes) any_empty record0 !! i2 /\
     (length record0 <= i2 -> record' !! i2 = Some any_empty)) /\
  (forall (schemas : Schemas) (st st' : Locals) r n' m' ri' (j i : nat) c,
     Decode_projected_columns (Z.of_nat (length column_indexes))
       (col_index_mapping column_indexes) schemas 0 0 0 st =
     (Ok (r, (n', m', ri')), st') ->
     col_index_mapping column_indexes !! j = Some (c, Z.of_nat i) ->
     ((n' <= Z.of_nat j)%Z <-> never_matched schemas column_indexes i) /\
     ((n' <= Z.of_nat j)%Z -> record st' !! i = record st !! i)) /\
  (forall size mapping (schemas : Schemas) n m ri (st st' : Locals)
          r n' m' ri',
     (0 <= n)%Z ->
     Decode_projected_columns size mapping schemas n m ri st =
     (Ok (r, (n', m', ri')), st') ->
     n' <> size ->
     r = None /\ m' = (m + present_count schemas)%Z).
Proof.
  intros Hpass Hcall.
  assert (Hexhaust :
            forall size mapping (schemas : Schemas) n m ri (st st' : Locals)
                   r n' m' ri',
              (0 <= n)%Z ->
              Decode_projected_columns size mapping schemas n m ri st =
              (Ok (r, (n', m', ri')), st') ->
              n' <> size ->
              r = None /\ m' = (m + present_count schemas)%Z).
  { intros size mapping schemas n m ri st st' r n' m' ri' Hn Hrun Hne.
    apply projected_pass_frame in Hrun
      as (_ & _ & _ & _ & _ & _ & Hend & _); [by apply Hend|done]. }
  apply headers_pass_checks in Hpass as (kb & vb & Hchecks).
  unfold Decode_projected in Hcall.
  rewrite Decode_projected_body_after_headers, after_headers_run, Hchecks
    in Hcall.
  rewrite projected_tail_run in Hcall. cbn [key_buf value_buf record] in Hcall.
  destruct (Decode_projected_columns _ _ _ _ _ _ _)
    as [[[r [[n' m'] ri']]|e] st'] eqn:Hrun; [|done].
  injection Hcall as <- <-. cbn [fst].
  assert (Hnew : forall i : nat,
            i < length column_indexes ->
            record st' !! i =
              resize (length column_indexes) any_empty record0 !! i ->
            record st' !! i =
              resize (length column_indexes) any_empty record0 !! i /\
            (length record0 <= i -> record st' !! i = Some any_empty)).
  { intros i Hi Heq. split; [done|]. intros Hshort. rewrite Heq.
    by apply lookup_resize_new. }
  assert (Hnever : forall i : nat,
            never_matched (schemas_ this) column_indexes i ->
            record st' !! i =
              resize (length column_indexes) any_empty record0 !! i).
  { intros i Hi.
    pose proof Hi as (c & _ & _ & Hc & _).
    destruct (request_index _ _ _ Hc) as [j Hj].
    apply (unmet_untouched _ _ _ _ _ _ _ _ _ _ _ Hrun Hj).
    by apply (unmet_iff_never_matched _ _ _ _ _ _ _ _ _ _ _ Hrun Hj). }
  split; [|split; [|split; [|split; [|split; [|split;
    [|exact Hexhaust]]]]]].
  - apply projected_columns_status in Hrun as [->| ->]; done.
  - apply projected_pass_frame in Hrun as (_ & _ & Hlen & _); [|done].
    simpl in Hlen. by rewrite Hlen, length_resize.
  - intros i Hi. pose proof Hi as (c & _ & _ & Hc & _).
    apply Hnew; [by eapply lookup_lt_Some|]. by apply Hnever.
  - intros i c Hi Hout. apply Hnew; [by eapply lookup_lt_Some|].
    apply Hnever. exists c, i, c. split; [done|]. split; [done|].
    split; [right; split; [done|lia]|]. by left.
  - intros i1 i2 c Hlt Hi1 Hi2. apply Hnew; [by eapply lookup_lt_Some|].
    apply Hnever. exists c, i2, c. split; [done|]. split; [done|].
    split; [right; split; [done|lia]|]. right. by exists i1.
  - intros schemas st0 st1 r0 n0 m0 ri0 j i c Hpass Hj. split.
    + exact (unmet_iff_never_matched _ _ _ _ _ _ _ _ _ _ _ Hpass Hj).
    + exact (unmet_untouched _ _ _ _ _ _ _ _ _ _ _ Hpass Hj).
Qed.

(** *** Projected decode against full decode *)

Lemma skip_col_follows_decode_col (s : BaseSchema) kb vb v kb' vb' :
  skip_follows_decode ->
  decode_col s kb vb = (Ok v, (kb', vb')) ->
  skip_col s kb vb = (Ok tt, (kb', vb')).
Proof.
  intros [Hkey Hval]. unfold decode_col, skip_col.
  destruct (IsKey s).
  - destruct (DecodeKey s kb) as [[x|e] kb1] eqn:E; [|done].
    intros [= <- <- <-]. by rewrite (Hkey _ _ _ _ E).
  - destruct (IsEnd vb); [by intros [= <- <- <-]|].
    destruct (DecodeValue s vb) as [[x|e] vb1] eqn:E; [|done].
    intros [= <- <- <-]. by rewrite (Hval _ _ _ _ E).
Qed.

(** A successful column pass of full decode writes the output slots of
    its columns and no other. *)
Lemma Decode_columns_frame (schemas : Schemas) (st st' : Locals) :
  Decode_columns schemas st = (Ok tt, st') ->
  length (record st') = length (record st) /\
  forall idx : Z,
    (0 <= idx)%Z -> idx ∉ GetIndex <$> omap id schemas ->
    record st' !! Z.to_nat idx = record st !! Z.to_nat idx.
Proof.
  revert st. induction schemas as [|[s|] rest IH]; intros st Hrun.
  - unfold Decode_columns in Hrun. simpl in Hrun. unfold ret in Hrun.
    by simplify_eq.
  - rewrite Decode_columns_cons, DecodeOrSkip_decode in Hrun.
    destruct (decode_col s (key_buf st) (value_buf st)) as [[v|e] [kb' vb']];
      [|done].
    unfold at_assign in Hrun. cbn [rd wr record_ref record] in Hrun.
    case_decide as Hin; [|done].
    apply IH in Hrun as [Hlen Hframe]. simpl in Hlen, Hframe.
    rewrite length_insert in Hlen. split; [done|].
    intros idx Hidx Hnotin.
    change (omap id (Some s :: rest)) with (s :: omap id rest) in Hnotin.
    rewrite fmap_cons, not_elem_of_cons in Hnotin.
    destruct Hnotin as [Hne Hnotin].
    rewrite Hframe by done. apply list_lookup_insert_ne. lia.
  - rewrite Decode_columns_cons in Hrun. by apply IH in Hrun.
Qed.

(** The pass of projected decode run next to the column pass of full
    decode, from the same cursors.  [reqs] are the requests still to be
    met: strictly increasing positions, counted from [m] among the present
    slots that remain, and distinct output slots inside the record.  Every
    one of them ends up holding what full decode put into the output slot
    of the column at its position. *)
Lemma projected_simulates_full size mapping :
  skip_follows_decode ->
  forall (schemas : Schemas) n m ri (stF stP stF' : Locals) reqs,
    key_buf stF = key_buf stP ->
    value_buf stF = value_buf stP ->
    Decode_columns schemas stF = (Ok tt, stF') ->
    (0 <= n)%Z ->
    drop (Z.to_nat n) mapping = reqs ->
    size = (n + Z.of_nat (length reqs))%Z ->
    StronglySorted (fun a b : Z * Z => (a.1 < b.1)%Z) reqs ->
    (forall a, a ∈ reqs ->
       (m <= a.1 < m + present_count schemas)%Z /\
       (0 <= a.2 < Z.of_nat (length (record stP)))%Z) ->
    NoDup (snd <$> reqs) ->
    NoDup (GetIndex <$> omap id schemas) ->
    exists r cnt stP',
      Decode_projected_columns size mapping schemas n m ri stP =
      (Ok (r, cnt), stP') /\
      length (record stP') = length (record stP) /\
      (forall a s,
         a ∈ reqs ->
         omap id schemas !! Z.to_nat (a.1 - m) = Some s ->
         record stP' !! Z.to_nat a.2 = record stF' !! Z.to_nat (GetIndex s)) /\
      (forall i : nat,
         (forall a, a ∈ reqs -> Z.to_nat a.2 <> i) ->
         record stP' !! i = record stP !! i).
Proof.
  intros Hcontract schemas.
  induction schemas as [|bs rest IH];
    intros n m ri stF stP stF' reqs Hk Hv Hfull Hn Hdrop Hsize Hsorted Hreqs
           Hnd Hidx.
  { assert (reqs = []) as ->.
    { destruct reqs as [|a reqs]; [done|].
      destruct (Hreqs a) as [Hr _]; [left|].
      unfold present_count in Hr. simpl in Hr. lia. }
    simpl. unfold ret. eexists _, _, _. split; [done|]. split; [done|].
    split; [|done]. intros a s Ha. by apply elem_of_nil in Ha. }
  destruct (decide (size = n)) as [Heq|Hne].
  { assert (reqs = []) as ->.
    { destruct reqs; [done|]. simpl in Hsize. lia. }
    simpl. apply Z.eqb_eq in Heq. rewrite Heq. unfold ret.
    eexists _, _, _. split; [done|]. split; [done|].
    split; [|done]. intros a s Ha. by apply elem_of_nil in Ha. }
  destruct reqs as [|a reqs']; [simpl in Hsize; lia|].
  assert (Hnth : nth (Z.to_nat n) mapping (0, 0)%Z = a).
  { rewrite nth_lookup.
    pose proof (lookup_drop mapping (Z.to_nat n) 0) as Hl.
    rewrite Hdrop in Hl. simpl in Hl. rewrite Nat.add_0_r in Hl.
    by rewrite <- Hl. }
  assert (Hdrop' : drop (Z.to_nat (n + 1)) mapping = reqs').
  { replace (Z.to_nat (n + 1)) with (Z.to_nat n + 1) by lia.
    by rewrite <- drop_drop, Hdrop. }
  destruct bs as [s|].
  2:{ rewrite Decode_columns_cons in Hfull.
      destruct (IH n m ri stF stP stF' (a :: reqs') Hk Hv Hfull Hn Hdrop
                   Hsize Hsorted Hreqs Hnd Hidx)
        as (r & cnt & stP' & Hrun & Hlen & Hvals & Hframe).
      exists r, cnt, stP'. split; [|done].
      simpl. apply Z.eqb_neq in Hne. by rewrite Hne. }
  pose proof Hsorted as Hsorted0. pose proof Hnd as Hnd0.
  apply StronglySorted_inv in Hsorted as [Hsorted' Hhead].
  rewrite Forall_forall in Hhead.
  rewrite fmap_cons in Hnd. apply NoDup_cons in Hnd as [Hnotin Hnd'].
  simpl in Hsize.
  rewrite Decode_columns_cons, DecodeOrSkip_decode in Hfull.
  destruct (decode_col s (key_buf stF) (value_buf stF))
    as [[v|e] [kb' vb']] eqn:Hdec; [|done].
  unfold at_assign in Hfull.
  cbn [rd wr record_ref record key_buf value_buf] in Hfull.
  case_decide as HinF; [|done].
  change (omap id (Some s :: rest)) with (s :: omap id rest) in *.
  rewrite fmap_cons in Hidx. apply NoDup_cons in Hidx as [HnotinF Hidx'].
  assert (Hcount : present_count (Some s :: rest) =
                   (1 + present_count rest)%Z).
  { unfold present_count.
    change (omap id (Some s :: rest)) with (s :: omap id rest).
    rewrite length_cons. lia. }
  assert (HvF : record stF' !! Z.to_nat (GetIndex s) = Some v).
  { destruct (Decode_columns_frame _ _ _ Hfull) as [_ Hfr].
    rewrite Hfr; [|lia|done]. simpl. apply list_lookup_insert_eq. lia. }
  rewrite projected_columns_present by done. cbv zeta. rewrite Hnth.
  rewrite <- Hk, <- Hv, Hdec.
  destruct (Hreqs a ltac:(left)) as [Hpos Hslot].
  destruct (a.1 =? m)%Z eqn:Hmatch.
  - apply Z.eqb_eq in Hmatch.
    rewrite decide_True by done.
    edestruct (IH (n + 1)%Z (m + 1)%Z a.2
                 {| key_buf := kb'; value_buf := vb';
                    record := <[Z.to_nat (GetIndex s):=v]> (record stF) |}
                 {| key_buf := kb'; value_buf := vb';
                    record := <[Z.to_nat a.2:=v]> (record stP) |}
                 stF' reqs')
      as (r & cnt & stP' & Hrun & Hlen & Hvals & Hframe);
      [| |exact Hfull| | | |exact Hsorted'| |exact Hnd'|exact Hidx'|];
      try done; try lia.
    { intros a' Ha'. simpl. rewrite length_insert.
      destruct (Hreqs a' ltac:(by right)) as [Hp Hs].
      specialize (Hhead a' Ha'). rewrite Hcount in Hp. lia. }
    exists r, cnt, stP'. split; [exact Hrun|].
    simpl in Hlen, Hframe. rewrite length_insert in Hlen.
    split; [done|]. split.
    + intros a' s' Ha' Hs'. apply elem_of_cons in Ha' as [->|Ha'].
      * rewrite Hmatch, Z.sub_diag in Hs'. simpl in Hs'.
        assert (s' = s) as -> by congruence.
        rewrite HvF, Hframe.
        -- apply list_lookup_insert_eq. lia.
        -- intros a' Ha' Heq. apply Hnotin.
           destruct (Hreqs a' ltac:(by right)) as [_ Hs].
           replace a.2 with a'.2 by lia. by apply list_elem_of_fmap_2.
      * specialize (Hhead a' Ha').
        apply Hvals; [done|].
        replace (Z.to_nat (a'.1 - m)) with (S (Z.to_nat (a'.1 - (m + 1))))
          in Hs' by lia.
        exact Hs'.
    + intros i Hi. rewrite Hframe.
      * apply list_lookup_insert_ne. apply Hi. by left.
      * intros a' Ha'. apply Hi. by right.
  - apply Z.eqb_neq in Hmatch.
    rewrite (skip_col_follows_decode_col _ _ _ _ _ _ Hcontract Hdec).
    edestruct (IH n (m + 1)%Z ri
                 {| key_buf := kb'; value_buf := vb';
                    record := <[Z.to_nat (GetIndex s):=v]> (record stF) |}
                 {| key_buf := kb'; value_buf := vb'; record := record stP |}
                 stF' (a :: reqs'))
      as (r & cnt & stP' & Hrun & Hlen & Hvals & Hframe);
      [| |exact Hfull| | | |exact Hsorted0| |exact Hnd0|exact Hidx'|];
      try done; try (simpl; lia).
    { intros a' Ha'. simpl.
      destruct (Hreqs a' Ha') as [Hp Hs]. rewrite Hcount in Hp.
      split; [|done].
      apply elem_of_cons in Ha' as [->|Ha']; [lia|].
      specialize (Hhead a' Ha'). lia. }
    exists r, cnt, stP'. split; [exact Hrun|].
    simpl in Hlen, Hframe.
    split; [done|]. split; [|done].
    intros a' s' Ha' Hs'.
    assert (m < a'.1)%Z.
    { apply elem_of_cons in Ha' as [->|Ha2]; [lia|].
      specialize (Hhead a' Ha2). lia. }
    apply Hvals; [done|].
    replace (Z.to_nat (a'.1 - m)) with (S (Z.to_nat (a'.1 - (m + 1))))
      in Hs' by lia.
    exact Hs'.
Qed.

(** In a schema list without null entries the present slots are the
    slots. *)
Lemma omap_id_all_present (schemas : Schemas) (i : nat) (s : BaseSchema) :
  Forall is_Some schemas ->
  schemas !! i = Some (Some s) -> omap id schemas !! i = Some s.
Proof.
  intros Hall. revert i. induction Hall as [|bs rest [s0 ->] _ IH]; intros i.
  { by rewrite lookup_nil. }
  destruct i as [|i]; simpl.
  - by intros [= ->].
  - apply IH.
Qed.

(** C2 (amended).  Let skipping a column move the cursor as decoding it
    does, let full decode succeed on the input, and let the output indices
    of the present schema slots be distinct.  For every projection of [k]
    distinct positions, each naming a present slot by its rank among the
    present slots, projected decode succeeds with a record of exactly [k]
    values, and output slot [i] holds the value full decode produced for
    the present slot that request [i] names.  Nothing else is in the
    record.  When the schema list has no null entry, the rank of a slot is
    its position in the schema list. *)
Theorem projected_decode_agrees_with_full_decode
    (this : Decoder) (key value : list byte) (column_indexes : list Z)
    (record0 recordP0 record_full : Record_) :
  skip_follows_decode ->
  Decode this key value record0 = (Ok 0%Z, record_full) ->
  NoDup column_indexes ->
  Forall (fun c => 0 <= c < present_count (schemas_ this))%Z column_indexes ->
  NoDup (GetIndex <$> omap id (schemas_ this)) ->
  exists record_proj,
    Decode_projected this key value column_indexes recordP0 =
    (Ok 0%Z, record_proj) /\
    length record_proj = length column_indexes /\
    (forall (i : nat) c s,
       column_indexes !! i = Some c ->
       omap id (schemas_ this) !! Z.to_nat c = Some s ->
       is_Some (record_proj !! i) /\
       record_proj !! i = record_full !! Z.to_nat (GetIndex s)) /\
    (Forall is_Some (schemas_ this) ->
     forall (i : nat) c s,
       column_indexes !! i = Some c ->
       schemas_ this !! Z.to_nat c = Some (Some s) ->
       record_proj !! i = record_full !! Z.to_nat (GetIndex s)).
Proof.
  intros Hcontract Hfull Hnd Hrange Hidx.
  unfold Decode in Hfull. unfold Decode_projected.
  rewrite Decode_body_after_headers, after_headers_run in Hfull.
  rewrite Decode_projected_body_after_headers, after_headers_run.
  destruct (header_checks this key value) as [[[|]|e] [kb vb]]; [|done..].
  rewrite full_tail_run in Hfull. rewrite projected_tail_run.
  cbn [key_buf value_buf record] in *.
  destruct (Decode_columns (schemas_ this) _) as [[[]|e] stF'] eqn:HrunF;
    [|done].
  injection Hfull as <-.
  destruct (projected_simulates_full (Z.of_nat (length column_indexes))
              (col_index_mapping column_indexes) Hcontract
              (schemas_ this) 0 0 0
              {| key_buf := kb; value_buf := vb;
                 record := resize (length (schemas_ this)) any_empty
                             record0 |}
              {| key_buf := kb; value_buf := vb;
                 record := resize (length column_indexes) any_empty recordP0 |}
              stF' (col_index_mapping column_indexes))
    as (r & cnt & stP' & Hrun & Hlen & Hvals & _).
  - done.
  - done.
  - done.
  - done.
  - done.
  - rewrite col_index_mapping_length. lia.
  - by apply col_index_mapping_increasing.
  - intros a Ha. apply col_index_mapping_elem in Ha as (i & Hi & Hslot).
    rewrite Forall_forall in Hrange. split.
    + rewrite Z.add_0_l. apply Hrange. by eapply list_elem_of_lookup_2.
    + simpl. rewrite length_resize. apply lookup_lt_Some in Hi. lia.
  - apply col_index_mapping_snd_NoDup.
  - done.
  - rewrite Hrun. simpl in Hlen. rewrite length_resize in Hlen.
    exists (record stP'). split.
    { f_equal. f_equal.
      apply projected_columns_status in Hrun as [->| ->]; done. }
    split; [done|].
    assert (Hslots : forall (i : nat) c s,
              column_indexes !! i = Some c ->
              omap id (schemas_ this) !! Z.to_nat c = Some s ->
              record stP' !! i = record stF' !! Z.to_nat (GetIndex s)).
    { intros i c s Hi Hs.
      specialize (Hvals (c, Z.of_nat i) s). simpl in Hvals.
      rewrite Z.sub_0_r, Nat2Z.id in Hvals. apply Hvals; [|done].
      apply col_index_mapping_elem. eauto. }
    split.
    + intros i c s Hi Hs. split; [|by eapply Hslots].
      apply lookup_lt_is_Some. rewrite Hlen. by eapply lookup_lt_Some.
    + intros Hall i c s Hi Hs. eapply Hslots; [done|].
      by apply omap_id_all_present.
Qed.

(** *** Further properties: statuses, lengths and written slots *)

(** A successful full decode, taken apart. *)
Lemma Decode_success_inv (this : Decoder) key value record0 record' :
  Decode this key value record0 = (Ok 0%Z, record') ->
  exists kb vb stF',
    header_checks this key value = (Ok true, (kb, vb)) /\
    Decode_columns (schemas_ this)
      {| key_buf := kb; value_buf := vb;
         record := resize (length (schemas_ this)) any_empty record0 |} =
    (Ok tt, stF') /\
    record stF' = record'.
Proof.
  unfold Decode. rewrite Decode_body_after_headers, after_headers_run.
  destruct (header_checks this key value) as [[[|]|e] [kb vb]]; [|done..].
  rewrite full_tail_run. cbn [key_buf value_buf record].
  destruct (Decode_columns (schemas_ this) _) as [[[]|e] stF'] eqn:Hrun;
    [|done].
  intros [= <-]. eauto 10.
Qed.

(** What the checks did when they all passed. *)
Lemma header_checks_pass_inv (this : Decoder) key value kb vb :
  header_checks this key value = (Ok true, (kb, vb)) ->
  exists kb1 kb2 kb3 tag version,
    Skip 1 (Buf_new key (le_ this)) = (Ok tt, kb1) /\
    ReadLong kb1 = (Ok (common_id_ this), kb2) /\
    ReverseRead kb2 = (Ok tag, kb3) /\ (tag <= codec_version_ this)%Z /\
    ReverseSkip 3 kb3 = (Ok tt, kb) /\
    ReadInt (Buf_new value (le_ this)) = (Ok version, vb) /\
    (version <= schema_version_ this)%Z.
Proof.
  unfold header_checks.
  destruct (Skip 1 (Buf_new key (le_ this))) as [[[]|e1] kb1] eqn:E1; [|done].
  destruct (ReadLong kb1) as [[id|e2] kb2] eqn:E2; [|done].
  destruct (id =? common_id_ this)%Z eqn:Eid; simpl; [|done].
  apply Z.eqb_eq in Eid; subst id.
  destruct (ReverseRead kb2) as [[tag|e3] kb3] eqn:E3; [|done].
  destruct (tag <=? codec_version_ this)%Z eqn:Etag; simpl; [|done].
  apply Z.leb_le in Etag.
  destruct (ReverseSkip 3 kb3) as [[[]|e4] kb4] eqn:E4; [|done].
  destruct (ReadInt (Buf_new value (le_ this))) as [[version|e5] vb1]
    eqn:E5; [|done].
  intros [= Hver <- <-]. apply Z.leb_le in Hver.
  exists kb1, kb2, kb3, tag, version. done.
Qed.

(** The value a dispatch assigns is an optional of the schema's type. *)
Lemma decode_col_typed (s : BaseSchema) kb vb v kb' vb' :
  decode_col s kb vb = (Ok v, (kb', vb')) ->
  exists o, v = any_optional (GetType s) o.
Proof.
  unfold decode_col, absent. destruct (IsKey s).
  - destruct (DecodeKey s kb) as [[x|e] kb1]; [|done].
    intros [= <- _ _]. eauto.
  - destruct (IsEnd vb); [intros [= <- _ _]; eauto|].
    destruct (DecodeValue s vb) as [[x|e] vb1]; [|done].
    intros [= <- _ _]. eauto.
Qed.

(** A successful column pass: every present schema had its output index
    inside the record, and with distinct indices every such slot holds an
    optional of its schema's type. *)
Lemma Decode_columns_written (schemas : Schemas) (st st' : Locals) :
  Decode_columns schemas st = (Ok tt, st') ->
  Forall (fun s => 0 <= GetIndex s < Z.of_nat (length (record st)))%Z
         (omap id schemas) /\
  (NoDup (GetIndex <$> omap id schemas) ->
   forall s, s ∈ omap id schemas ->
     exists o, record st' !! Z.to_nat (GetIndex s) =
               Some (any_optional (GetType s) o)).
Proof.
  revert st. induction schemas as [|[s|] rest IH]; intros st Hrun.
  - split; [constructor|]. intros _ s Hs. by apply elem_of_nil in Hs.
  - change (omap id (Some s :: rest)) with (s :: omap id rest).
    rewrite Decode_columns_cons, DecodeOrSkip_decode in Hrun.
    destruct (decode_col s (key_buf st) (value_buf st))
      as [[v|e] [kb' vb']] eqn:Hdec; [|done].
    unfold at_assign in Hrun.
    cbn [rd wr record_ref record key_buf value_buf] in Hrun.
    case_decide as Hin; [|done].
    destruct (IH _ Hrun) as [Hall Htyped]. simpl in Hall.
    rewrite length_insert in Hall.
    split; [by constructor|].
    rewrite fmap_cons. intros [Hnotin Hnd]%NoDup_cons s' Hs'.
    apply elem_of_cons in Hs' as [->|Hs']; [|by apply Htyped].
    destruct (decode_col_typed _ _ _ _ _ _ Hdec) as [o ->].
    exists o. destruct (Decode_columns_frame _ _ _ Hrun) as [_ Hframe].
    rewrite Hframe; [|lia|done]. simpl. apply list_lookup_insert_eq. lia.
  - rewrite Decode_columns_cons in Hrun. by apply IH.
Qed.

(** X1.  The three entry points return only the statuses -1 and 0.  With
    -1 the record is the one passed in.  With 0 the record has the length
    of the schema list (full and key-only decode) or of the projection
    (projected decode), whatever length the caller's record had. *)
Theorem decode_statuses_and_record_lengths
    (this : Decoder) (key value : list byte) (column_indexes : list Z)
    (record0 record' : Record_) (status : Z) :
  (Decode this key value record0 = (Ok status, record') ->
   (status = (-1)%Z /\ record' = record0) \/
   (status = 0%Z /\ length record' = length (schemas_ this))) /\
  (RecordDecoderV1_DecodeKey this key record0 = (Ok status, record') ->
   (status = (-1)%Z /\ record' = record0) \/
   (status = 0%Z /\ length record' = length (schemas_ this))) /\
  (Decode_projected this key value column_indexes record0 =
   (Ok status, record') ->
   (status = (-1)%Z /\ record' = record0) \/
   (status = 0%Z /\ length record' = length column_indexes)).
Proof.
  split; [|split].
  - unfold Decode. rewrite Decode_body_after_headers, after_headers_run.
    destruct (header_checks this key value) as [[[|]|e] [kb vb]];
      [|intros [= <- <-]; by left|done].
    rewrite full_tail_run. cbn [key_buf value_buf record].
    destruct (Decode_columns (schemas_ this) _) as [[[]|e] stF'] eqn:Hrun;
      [|done].
    intros [= <- <-]. right. split; [done|].
    destruct (Decode_columns_frame _ _ _ Hrun) as [Hlen _].
    simpl in Hlen. by rewrite Hlen, length_resize.
  - unfold RecordDecoderV1_DecodeKey.
    destruct (key_header_phase this key record0)
      as [(Hf & st & -> & Hr) | [(Hf & _ & e & st & -> & Hr)
         | (Hf & kb1 & kb2 & kb3 & kb4 & tag & _ & _ & _ & _ & _ & ->)]].
    + intros [= <- <-]. by left.
    + done.
    + rewrite !bind_run. unfold resize_record at 1. rewrite bind_run.
      cbn [rd wr k_record_ref k_key_buf k_record].
      destruct (DecodeKey_columns _ _ _) as [[[]|e] st'] eqn:Hrun; [|done].
      unfold ret. intros [= <- <-]. right. split; [done|].
      apply DecodeKey_columns_slots in Hrun as [Hlen _]; [|done].
      simpl in Hlen. by rewrite Hlen, length_resize.
  - unfold Decode_projected.
    rewrite Decode_projected_body_after_headers, after_headers_run.
    destruct (header_checks this key value) as [[[|]|e] [kb vb]];
      [|intros [= <- <-]; by left|done].
    rewrite projected_tail_run. cbn [key_buf value_buf record].
    destruct (Decode_projected_columns _ _ _ _ _ _ _)
      as [[[r [[n' m'] ri']]|e] st'] eqn:Hrun; [|done].
    intros [= <- <-]. right. cbn [fst]. split.
    + apply projected_columns_status in Hrun as [->| ->]; done.
    + apply projected_pass_frame in Hrun as (_ & _ & Hlen & _); [|done].
      simpl in Hlen. by rewrite Hlen, length_resize.
Qed.

(** X2.  Full decode can only succeed when the output index of every
    present schema lies inside the record it has resized to the length of
    the schema list: an index below 0 or not below that length makes
    [record.at] throw.  After a success, a slot that no present schema
    names is as the resize left it (the default empty value where the
    caller's record was shorter), and, the output indices being distinct,
    the slot of each present schema holds an optional of that schema's
    physical type. *)
Theorem full_decode_writes_the_named_slots
    (this : Decoder) (key value : list byte) (record0 record' : Record_) :
  Decode this key value record0 = (Ok 0%Z, record') ->
  (forall s, Some s ∈ schemas_ this ->
     (0 <= GetIndex s < Z.of_nat (length (schemas_ this)))%Z) /\
  (forall i : nat,
     (forall s, Some s ∈ schemas_ this -> Z.to_nat (GetIndex s) <> i) ->
     record' !! i = resize (length (schemas_ this)) any_empty record0 !! i /\
     (length record0 <= i < length (schemas_ this) ->
      record' !! i = Some any_empty)) /\
  (NoDup (GetIndex <$> omap id (schemas_ this)) ->
   forall s, Some s ∈ schemas_ this ->
     exists o, record' !! Z.to_nat (GetIndex s) =
               Some (any_optional (GetType s) o)).
Proof.
  intros (kb & vb & stF' & _ & Hrun & <-)%Decode_success_inv.
  assert (Hpresent : forall s, Some s ∈ schemas_ this <->
                               s ∈ omap id (schemas_ this)).
  { intros s. rewrite list_elem_of_omap. split.
    - intros Hs. by exists (Some s).
    - intros (x & Hx & Hid). simpl in Hid. by subst x. }
  destruct (Decode_columns_written _ _ _ Hrun) as [Hall Htyped].
  destruct (Decode_columns_frame _ _ _ Hrun) as [Hlen Hframe].
  simpl in Hall, Hlen, Hframe. rewrite length_resize in Hall.
  rewrite Forall_forall in Hall.
  split; [|split].
  - intros s Hs. apply Hall. by apply Hpresent.
  - intros i Hi.
    assert (Heq : record stF' !! i =
                  resize (length (schemas_ this)) any_empty record0 !! i).
    { rewrite <- (Nat2Z.id i). apply Hframe; [lia|].
      intros (s & Hidx & Hs)%list_elem_of_fmap.
      apply (Hi s); [by apply Hpresent|]. rewrite <- Hidx. lia. }
    split; [done|]. intros [Hshort Hlt]. rewrite Heq.
    by apply lookup_resize_new.
  - intros Hnd s Hs. apply Htyped; [done|]. by apply Hpresent.
Qed.

(** *** Further properties: key-only decode against full decode *)

(** A value column leaves the key cursor alone. *)
Lemma decode_col_value_keeps_key (s : BaseSchema) kb vb v kb' vb' :
  IsKey s = false ->
  decode_col s kb vb = (Ok v, (kb', vb')) -> kb' = kb.
Proof.
  unfold decode_col. intros ->.
  destruct (IsEnd vb); [by intros [= _ <- _]|].
  destruct (DecodeValue s vb) as [[x|e] vb1]; [|done].
  by intros [= _ <- _].
Qed.

(** A key column is decoded by [DecodeKey] on the key cursor. *)
Lemma decode_col_key (s : BaseSchema) kb vb v kb' vb' :
  IsKey s = true ->
  decode_col s kb vb = (Ok v, (kb', vb')) ->
  exists x, DecodeKey s kb = (Ok x, kb') /\ v = any_optional (GetType s) x.
Proof.
  unfold decode_col. intros ->.
  destruct (DecodeKey s kb) as [[x|e] kb1]; [|done].
  intros [= <- <- _]. eauto.
Qed.

(** The pass of key-only decode run next to the column pass of full
    decode, from the same key cursor. *)
Lemma key_pass_simulates_full (schemas : Schemas) :
  forall (idx : Z) (stF stF' : Locals) (stK : KeyLocals),
    key_buf stF = k_key_buf stK ->
    Decode_columns schemas stF = (Ok tt, stF') ->
    (0 <= idx)%Z ->
    (idx + Z.of_nat (length schemas) <= Z.of_nat (length (k_record stK)))%Z ->
    NoDup (GetIndex <$> omap id schemas) ->
    exists stK',
      DecodeKey_columns schemas idx stK = (Ok tt, stK') /\
      k_key_buf stK' = key_buf stF' /\
      length (k_record stK') = length (k_record stK) /\
      (forall (j : nat) s,
         schemas !! j = Some (Some s) -> IsKey s = true ->
         k_record stK' !! (Z.to_nat idx + j) =
         record stF' !! Z.to_nat (GetIndex s)) /\
      (forall i : nat, i < Z.to_nat idx ->
         k_record stK' !! i = k_record stK !! i).
Proof.
  induction schemas as [|bs rest IH];
    intros idx stF stF' stK Hk Hfull Hidx Hlen Hnd.
  { unfold Decode_columns in Hfull. simpl in Hfull. unfold ret in Hfull.
    simplify_eq. exists stK. simpl. unfold ret.
    split; [done|]. split; [done|]. split; [done|]. split; [|done].
    intros j s Hj. by rewrite lookup_nil in Hj. }
  rewrite Decode_columns_cons in Hfull. rewrite DecodeKey_columns_cons.
  rewrite length_cons in Hlen.
  destruct bs as [s|].
  2:{ destruct (IH (idx + 1)%Z stF stF' stK Hk Hfull)
        as (stK' & Hrun & Hkb & Hl & Hvals & Hold); [lia|lia|done|].
      exists stK'. split; [done|]. split; [done|]. split; [done|]. split.
      - intros [|j] s Hj Hkey; [done|]. simpl in Hj.
        replace (Z.to_nat idx + S j) with (Z.to_nat (idx + 1) + j) by lia.
        by apply Hvals.
      - intros i Hi. apply Hold. lia. }
  rewrite DecodeOrSkip_decode in Hfull.
  destruct (decode_col s (key_buf stF) (value_buf stF))
    as [[v|e] [kb' vb']] eqn:Hdec; [|done].
  unfold at_assign in Hfull.
  cbn [rd wr record_ref record key_buf value_buf] in Hfull.
  case_decide as HinF; [|done].
  change (omap id (Some s :: rest)) with (s :: omap id rest) in Hnd.
  rewrite fmap_cons in Hnd. apply NoDup_cons in Hnd as [Hnotin Hnd].
  destruct (IsKey s) eqn:Hkey.
  - destruct (decode_col_key _ _ _ _ _ _ Hkey Hdec) as (x & HdecK & ->).
    rewrite DecodeOrSkip_key_only by done. rewrite <- Hk, HdecK.
    rewrite decide_True by lia.
    destruct (IH (idx + 1)%Z
                {| key_buf := kb'; value_buf := vb';
                   record := <[Z.to_nat (GetIndex s) :=
                               any_optional (GetType s) x]> (record stF) |}
                stF'
                {| k_key_buf := kb';
                   k_record := <[Z.to_nat idx :=
                                 any_optional (GetType s) x]> (k_record stK) |}
                eq_refl Hfull)
      as (stK' & Hrun & Hkb & Hl & Hvals & Hold);
      [lia|simpl; rewrite length_insert; lia|done|].
    simpl in Hl, Hold. rewrite length_insert in Hl.
    exists stK'. split; [done|]. split; [done|]. split; [done|]. split.
    + intros [|j] s' Hj Hkey'.
      * simpl in Hj. assert (s' = s) as -> by congruence.
        rewrite Nat.add_0_r, Hold by lia.
        destruct (Decode_columns_frame _ _ _ Hfull) as [_ Hframe].
        rewrite Hframe; [|lia|done]. simpl.
        rewrite !list_lookup_insert_eq by lia. done.
      * simpl in Hj.
        replace (Z.to_nat idx + S j) with (Z.to_nat (idx + 1) + j) by lia.
        by apply Hvals.
    + intros i Hi. rewrite Hold by lia. apply list_lookup_insert_ne. lia.
  - pose proof (decode_col_value_keeps_key _ _ _ _ _ _ Hkey Hdec) as ->.
    destruct (IH (idx + 1)%Z
                {| key_buf := key_buf stF; value_buf := vb';
                   record := <[Z.to_nat (GetIndex s) := v]> (record stF) |}
                stF' stK Hk Hfull)
      as (stK' & Hrun & Hkb & Hl & Hvals & Hold); [lia|lia|done|].
    exists stK'. split; [done|]. split; [done|]. split; [done|]. split.
    + intros [|j] s' Hj Hkey'.
      * simpl in Hj. assert (s' = s) as -> by congruence. congruence.
      * simpl in Hj.
        replace (Z.to_nat idx + S j) with (Z.to_nat (idx + 1) + j) by lia.
        by apply Hvals.
    + intros i Hi. apply Hold. lia.
Qed.

(** X3.  Where full decode succeeds, key-only decode of the same key
    succeeds too, whatever record it is given, and (the output indices of
    the present schemas being distinct) the slot at the schema-list
    position of each present key column holds the value full decode put
    into that column's output slot.  Key-only decode needs no contract
    with the schemas for this: it runs the same [DecodeKey] calls on the
    same key cursor, the value columns in between never moving it. *)
Theorem key_only_decode_agrees_with_full_decode
    (this : Decoder) (key value : list byte)
    (record0 recordK0 record_full : Record_) :
  Decode this key value record0 = (Ok 0%Z, record_full) ->
  NoDup (GetIndex <$> omap id (schemas_ this)) ->
  exists record_key,
    RecordDecoderV1_DecodeKey this key recordK0 = (Ok 0%Z, record_key) /\
    length record_key = length (schemas_ this) /\
    forall (i : nat) s,
      schemas_ this !! i = Some (Some s) -> IsKey s = true ->
      record_key !! i = record_full !! Z.to_nat (GetIndex s).
Proof.
  intros (kb & vb & stF' & Hchecks & Hfull & <-)%Decode_success_inv Hnd.
  apply header_checks_pass_inv in Hchecks
    as (kb1 & kb2 & kb3 & tag & version & E1 & E2 & E3 & Htag & E4 & _).
  unfold RecordDecoderV1_DecodeKey.
  destruct (key_header_phase this key recordK0)
    as [(Hf & _) | [(_ & Hnp & _)
       | (_ & kb1' & kb2' & kb3' & kb4' & tag' & E1' & E2' & E3' & _ & E4'
             & ->)]].
  - exfalso. unfold key_headers_fail, prefix_fails, reverse_tag_fails in Hf.
    clash.
  - exfalso. apply Hnp. unfold key_headers_pass. eauto 10.
  - assert (kb1' = kb1) as -> by congruence.
    assert (kb2' = kb2) as -> by congruence.
    assert (kb3' = kb3) as -> by congruence.
    assert (kb4' = kb) as -> by congruence.
    rewrite !bind_run. unfold resize_record at 1.
    rewrite bind_run. cbn [rd wr k_record_ref k_key_buf k_record].
    destruct (key_pass_simulates_full (schemas_ this) 0
                {| key_buf := kb; value_buf := vb;
                   record := resize (length (schemas_ this)) any_empty
                               record0 |}
                stF'
                {| k_key_buf := kb;
                   k_record := resize (length (schemas_ this)) any_empty
                                 recordK0 |}
                eq_refl Hfull)
      as (stK' & Hrun & _ & Hl & Hvals & _); [done| |done|].
    { simpl. rewrite length_resize. lia. }
    rewrite Hrun. unfold ret. exists (k_record stK').
    simpl in Hl. rewrite length_resize in Hl.
    split; [done|]. split; [done|].
    intros i s Hi Hkey. by apply (Hvals i s).
Qed.

(** *** Further properties: projections of any shape *)

(** X4.  The empty projection: with valid headers projected decode returns
    0 and an empty record, whatever the caller's record held and whatever
    the schema list is; no column is decoded or skipped, so no column can
    make the call throw. *)
Theorem empty_projection_decodes_nothing
    (this : Decoder) (key value : list byte) (record0 : Record_) :
  headers_pass this key value ->
  Decode_projected this key value [] record0 = (Ok 0%Z, []).
Proof.
  intros (kb & vb & Hchecks)%headers_pass_checks.
  unfold Decode_projected.
  rewrite Decode_projected_body_after_headers, after_headers_run, Hchecks.
  rewrite projected_tail_run. cbn [key_buf value_buf record length].
  rewrite resize_0. by destruct (schemas_ this) as [|bs rest].
Qed.

(** The pass of projected decode cannot fail where the column pass of full
    decode succeeds from the same cursors, as long as the plan names slots
    of the record. *)
Lemma projected_pass_succeeds size mapping :
  skip_follows_decode ->
  forall (schemas : Schemas) n m ri (stF stP stF' : Locals),
    key_buf stF = key_buf stP ->
    value_buf stF = value_buf stP ->
    Decode_columns schemas stF = (Ok tt, stF') ->
    (0 <= n <= size)%Z ->
    (forall j, (0 <= j < size)%Z ->
       (0 <= (nth (Z.to_nat j) mapping (0, 0)%Z).2
          < Z.of_nat (length (record stP)))%Z) ->
    exists r cnt stP',
      Decode_projected_columns size mapping schemas n m ri stP =
      (Ok (r, cnt), stP').
Proof.
  intros Hcontract schemas.
  induction schemas as [|bs rest IH];
    intros n m ri stF stP stF' Hk Hv Hfull Hn Hslots.
  { simpl. unfold ret. eauto. }
  destruct (decide (size = n)) as [Heq|Hne].
  { simpl. apply Z.eqb_eq in Heq. rewrite Heq. unfold ret. eauto. }
  rewrite Decode_columns_cons in Hfull.
  destruct bs as [s|].
  2:{ simpl. apply Z.eqb_neq in Hne. rewrite Hne. by eapply IH. }
  rewrite DecodeOrSkip_decode in Hfull.
  destruct (decode_col s (key_buf stF) (value_buf stF))
    as [[v|e] [kb' vb']] eqn:Hdec; [|done].
  unfold at_assign in Hfull.
  cbn [rd wr record_ref record key_buf value_buf] in Hfull.
  case_decide as HinF; [|done].
  rewrite projected_columns_present by done. cbv zeta.
  rewrite <- Hk, <- Hv, Hdec.
  destruct (_ =? m)%Z.
  - rewrite decide_True by (apply Hslots; lia).
    eapply IH; [| |exact Hfull| |]; [done|done|lia|].
    intros j Hj. simpl. rewrite length_insert. by apply Hslots.
  - rewrite (skip_col_follows_decode_col _ _ _ _ _ _ Hcontract Hdec).
    eapply IH; [| |exact Hfull| |]; [done|done|lia|].
    intros j Hj. simpl. by apply Hslots.
Qed.

(** X5.  Let skipping a column move the cursor as decoding it does.  On
    an input that full decode decodes successfully, projected decode
    succeeds for every projection, also one with repeated, negative or too
    large positions, and returns a record of the projection's length:
    its own writes always land inside the record it resized, and a
    skipped column cannot fail where decoding it does not. *)
Theorem projected_decode_succeeds_where_full_decode_does
    (this : Decoder) (key value : list byte) (column_indexes : list Z)
    (record0 recordP0 record_full : Record_) :
  skip_follows_decode ->
  Decode this key value record0 = (Ok 0%Z, record_full) ->
  exists record_proj,
    Decode_projected this key value column_indexes recordP0 =
    (Ok 0%Z, record_proj) /\
    length record_proj = length column_indexes.
Proof.
  intros Hcontract (kb & vb & stF' & Hchecks & Hfull & _)%Decode_success_inv.
  unfold Decode_projected.
  rewrite Decode_projected_body_after_headers, after_headers_run, Hchecks.
  rewrite projected_tail_run. cbn [key_buf value_buf record].
  destruct (projected_pass_succeeds (Z.of_nat (length column_indexes))
              (col_index_mapping column_indexes) Hcontract (schemas_ this)
              0 0 0
              {| key_buf := kb; value_buf := vb;
                 record := resize (length (schemas_ this)) any_empty
                             record0 |}
              {| key_buf := kb; value_buf := vb;
                 record := resize (length column_indexes) any_empty
                             recordP0 |}
              stF' eq_refl eq_refl Hfull)
    as (r & cnt & stP' & Hrun).
  - lia.
  - intros j Hj. simpl. rewrite length_resize.
    assert (Hlt : Z.to_nat j < length (col_index_mapping column_indexes)).
    { rewrite col_index_mapping_length. lia. }
    apply lookup_lt_is_Some_2 in Hlt as [a Ha].
    rewrite nth_lookup, Ha. simpl.
    destruct (request_slot _ _ _ Ha) as (i & Hi & ->).
    apply lookup_lt_Some in Hi. lia.
  - rewrite Hrun. destruct cnt as [[n' m'] ri'].
    exists (record stP'). split.
    + f_equal. f_equal.
      apply projected_columns_status in Hrun as [->| ->]; done.
    + apply projected_pass_frame in Hrun as (_ & _ & Hlen & _); [|done].
      simpl in Hlen. by rewrite Hlen, length_resize.
Qed.

Global Instance pair_le_antisymmetric : AntiSymm (=) pair_le.
Proof.
  intros [a1 a2] [b1 b2]. unfold pair_le, pair_lt. simpl. intros H1 H2.
  f_equal; lia.
Qed.

(** X6.  The plan of a projection is fixed by what [std::sort] promises:
    it is a rearrangement of the pairs (requested position, output slot),
    no element is smaller (by [operator<] of pairs) than one before it,
    and any list with these two properties is this plan.  So requests
    come in ascending position, and requests for one position in
    ascending output slot. *)
Theorem the_plan_is_the_sorted_list_of_requests (column_indexes : list Z) :
  col_index_mapping column_indexes ≡ₚ
    imap (fun i c => (c, Z.of_nat i)) column_indexes /\
  StronglySorted pair_le (col_index_mapping column_indexes) /\
  (forall plan : list (Z * Z),
     plan ≡ₚ imap (fun i c => (c, Z.of_nat i)) column_indexes ->
     Sorted pair_le plan ->
     plan = col_index_mapping column_indexes) /\
  (forall (j1 j2 : nat) a b,
     j1 < j2 ->
     col_index_mapping column_indexes !! j1 = Some a ->
     col_index_mapping column_indexes !! j2 = Some b ->
     (a.1 < b.1 \/ (a.1 = b.1 /\ a.2 < b.2))%Z).
Proof.
  split; [apply col_index_mapping_Permutation|].
  split; [apply col_index_mapping_sorted|]. split.
  - intros plan Hperm Hsorted.
    apply (Sorted_unique pair_le); [done| |].
    + apply Sorted_merge_sort. apply _.
    + by rewrite Hperm, col_index_mapping_Permutation.
  - intros j1 j2 a b Hlt Ha Hb.
    pose proof (StronglySorted_lookup_lt _ _ j1 j2 a b
                  (col_index_mapping_sorted column_indexes) Hlt Ha Hb) as Hle.
    assert (a.2 <> b.2).
    { intros Heq. pose proof (request_unique _ _ _ _ _ Ha Hb Heq). lia. }
    unfold pair_le, pair_lt in Hle. lia.
Qed.

(** X7.  The three entry points agree on what they reject: full decode
    and projected decode reject the same key/value pairs, for every
    projection and every record, and a key that key-only decode rejects is
    rejected by both of them with every value. *)
Theorem entry_points_reject_the_same_inputs
    (this : Decoder) (key value : list byte) (column_indexes : list Z)
    (record0 record1 record2 : Record_) :
  ((Decode this key value record0).1 = Ok (-1)%Z <->
   (Decode_projected this key value column_indexes record1).1 = Ok (-1)%Z) /\
  ((RecordDecoderV1_DecodeKey this key record2).1 = Ok (-1)%Z ->
   Decode this key value record0 = (Ok (-1)%Z, record0) /\
   Decode_projected this key value column_indexes record1 =
   (Ok (-1)%Z, record1)).
Proof.
  split.
  - rewrite (proj1 (Decode_rejected this key value record0)).
    by rewrite (proj1 (Decode_projected_rejected this key value
                         column_indexes record1)).
  - intros Hkey%DecodeKey_rejected.
    assert (Hfail : headers_fail this key value).
    { destruct Hkey as [Hp|Hr]; [by left|by right; left]. }
    split; [by apply Decode_rejected|by apply Decode_projected_rejected].
Qed.

(** *** Further properties: skipping, exceptions, versions *)

(** X8.  A dispatch with [skip = true] never changes the record.  And if
    skipping a column moves the cursor as decoding it does, then wherever
    a dispatch with [skip = false] succeeds, the dispatch with
    [skip = true] succeeds and leaves both cursors where the decode left
    them; this includes the value column at end-of-data, where neither
    moves a cursor. *)
Theorem skipping_consumes_what_decoding_consumes :
  (forall (s : BaseSchema) (idx : Z) (st : Locals),
     record (DecodeOrSkip s key_buf_ref value_buf_ref record_ref idx true
               st).2 = record st) /\
  (skip_follows_decode ->
   forall (s : BaseSchema) (idx idx' : Z) (st st' : Locals),
     DecodeOrSkip s key_buf_ref value_buf_ref record_ref idx false st =
     (Ok tt, st') ->
     DecodeOrSkip s key_buf_ref value_buf_ref record_ref idx' true st =
     (Ok tt, {| key_buf := key_buf st'; value_buf := value_buf st';
                record := record st |})).
Proof.
  split.
  - intros s idx st. rewrite DecodeOrSkip_skip.
    by destruct (skip_col s (key_buf st) (value_buf st)) as [r [kb' vb']].
  - intros Hcontract s idx idx' st st'.
    rewrite DecodeOrSkip_decode, DecodeOrSkip_skip.
    destruct (decode_col s (key_buf st) (value_buf st))
      as [[v|e] [kb' vb']] eqn:Hdec; [|done].
    rewrite (skip_col_follows_decode_col _ _ _ _ _ _ Hcontract Hdec).
    unfold at_assign. cbn [rd wr record_ref record].
    case_decide; [|done]. by intros [= <-].
Qed.

Lemma Decode_columns_length (schemas : Schemas) (st : Locals) :
  length (record (Decode_columns schemas st).2) = length (record st).
Proof.
  by destruct (Decode_columns_two_records schemas st st)
    as (_ & _ & _ & Hlen & _).
Qed.

Lemma DecodeKey_columns_length (schemas : Schemas) idx (st : KeyLocals) :
  length (k_record (DecodeKey_columns schemas idx st).2) =
  length (k_record st).
Proof.
  revert idx st. induction schemas as [|bs rest IH]; intros idx st; [done|].
  rewrite DecodeKey_columns_cons.
  destruct bs as [s|]; [destruct (IsKey s) eqn:Hkey|]; [|apply IH..].
  rewrite DecodeOrSkip_key_only by done.
  destruct (DecodeKey s (k_key_buf st)) as [[v|e] kb']; [|done].
  case_decide; [|done]. rewrite IH. simpl. apply length_insert.
Qed.

Lemma Decode_projected_columns_length size mapping (schemas : Schemas)
    n m ri (st : Locals) :
  length (record (Decode_projected_columns size mapping schemas n m ri
                    st).2) = length (record st).
Proof.
  revert n m ri st. induction schemas as [|bs rest IH]; intros n m ri st;
    [done|].
  destruct (decide (size = n)) as [Heq|Hne].
  { simpl. apply Z.eqb_eq in Heq. by rewrite Heq. }
  destruct bs as [s|].
  2:{ simpl. apply Z.eqb_neq in Hne. rewrite Hne. apply IH. }
  rewrite projected_columns_present by done. cbv zeta.
  destruct (_ =? m)%Z.
  - destruct (decode_col s (key_buf st) (value_buf st)) as [[v|e] [kb' vb']];
      [|done].
    case_decide; [|done]. rewrite IH. simpl. apply length_insert.
  - destruct (skip_col s (key_buf st) (value_buf st)) as [[[]|e] [kb' vb']];
      [|done].
    by rewrite IH.
Qed.

Lemma header_checks_pass_headers (this : Decoder) key value kb vb :
  header_checks this key value = (Ok true, (kb, vb)) ->
  headers_pass this key value.
Proof.
  intros (kb1 & kb2 & kb3 & tag & version & H)%header_checks_pass_inv.
  unfold headers_pass. exists kb1, kb2, kb3, kb, tag, version, vb. tauto.
Qed.

(** X9.  What a caller finds in its record after an exception.  If the
    exception left a header check, the record is as the caller passed it.
    Otherwise the checks had passed and a column threw (a cursor read, or
    [record.at] on a bad output index): the record then has the length it
    was resized to, the schema list's for full and key-only decode and the
    projection's for projected decode. *)
Theorem record_after_an_exception
    (this : Decoder) (key value : list byte) (column_indexes : list Z)
    (record0 record' : Record_) (e : exception) :
  (Decode this key value record0 = (Throw e, record') ->
   record' = record0 \/
   (headers_pass this key value /\
    length record' = length (schemas_ this))) /\
  (RecordDecoderV1_DecodeKey this key record0 = (Throw e, record') ->
   record' = record0 \/
   (key_headers_pass this key /\
    length record' = length (schemas_ this))) /\
  (Decode_projected this key value column_indexes record0 =
   (Throw e, record') ->
   record' = record0 \/
   (headers_pass this key value /\
    length record' = length column_indexes)).
Proof.
  split; [|split].
  - unfold Decode. rewrite Decode_body_after_headers, after_headers_run.
    destruct (header_checks this key value) as [[[|]|e0] [kb vb]] eqn:Hchecks;
      [|done|intros [= _ <-]; by left].
    rewrite full_tail_run. cbn [key_buf value_buf record].
    pose proof (Decode_columns_length (schemas_ this)
                  {| key_buf := kb; value_buf := vb;
                     record := resize (length (schemas_ this)) any_empty
                                 record0 |}) as Hlen.
    destruct (Decode_columns (schemas_ this) _) as [[[]|e1] stF']; [done|].
    intros [= _ <-]. right. split; [by eapply header_checks_pass_headers|].
    simpl in Hlen. by rewrite Hlen, length_resize.
  - unfold RecordDecoderV1_DecodeKey.
    destruct (key_header_phase this key record0)
      as [(Hf & st & -> & Hr) | [(Hf & _ & e0 & st & -> & Hr)
         | (Hf & kb1 & kb2 & kb3 & kb4 & tag & E1 & E2 & E3 & Htag & E4
               & ->)]].
    + done.
    + intros [= _ <-]. by left.
    + rewrite !bind_run. unfold resize_record at 1. rewrite bind_run.
      cbn [rd wr k_record_ref k_key_buf k_record].
      pose proof (DecodeKey_columns_length (schemas_ this) 0
                    {| k_key_buf := kb4;
                       k_record := resize (length (schemas_ this)) any_empty
                                     record0 |}) as Hlen.
      destruct (DecodeKey_columns _ _ _) as [[[]|e1] st']; [done|].
      intros [= _ <-]. right. split.
      * unfold key_headers_pass. eauto 10.
      * simpl in Hlen. by rewrite Hlen, length_resize.
  - unfold Decode_projected.
    rewrite Decode_projected_body_after_headers, after_headers_run.
    destruct (header_checks this key value) as [[[|]|e0] [kb vb]] eqn:Hchecks;
      [|done|intros [= _ <-]; by left].
    rewrite projected_tail_run. cbn [key_buf value_buf record].
    pose proof (Decode_projected_columns_length
                  (Z.of_nat (length column_indexes))
                  (col_index_mapping column_indexes) (schemas_ this) 0 0 0
                  {| key_buf := kb; value_buf := vb;
                     record := resize (length column_indexes) any_empty
                                 record0 |}) as Hlen.
    destruct (Decode_projected_columns _ _ _ _ _ _ _) as [[r|e1] stP'];
      [done|].
    intros [= _ <-]. right. split; [by eapply header_checks_pass_headers|].
    simpl in Hlen. by rewrite Hlen, length_resize.
Qed.

Lemma header_checks_pass_intro (this : Decoder) key value
    kb1 kb2 kb3 kb tag version vb :
  Skip 1 (Buf_new key (le_ this)) = (Ok tt, kb1) ->
  ReadLong kb1 = (Ok (common_id_ this), kb2) ->
  ReverseRead kb2 = (Ok tag, kb3) -> (tag <= codec_version_ this)%Z ->
  ReverseSkip 3 kb3 = (Ok tt, kb) ->
  ReadInt (Buf_new value (le_ this)) = (Ok version, vb) ->
  (version <= schema_version_ this)%Z ->
  header_checks this key value = (Ok true, (kb, vb)).
Proof.
  intros E1 E2 E3 Htag E4 E5 Hver.
  unfold header_checks. rewrite E1, E2, Z.eqb_refl. simpl. rewrite E3.
  apply Z.leb_le in Htag, Hver. rewrite Htag. simpl. by rewrite E4, E5, Hver.
Qed.

(** X10.  Raising a decoder's schema version or codec version, with the
    same endianness, schema list and table identifier, takes nothing
    away: an input that full decode, projected decode or key-only decode
    decodes successfully is decoded to the same record by the more
    permissive decoder. *)
Theorem a_more_permissive_decoder_decodes_the_same
    (this this' : Decoder) (key value : list byte) (column_indexes : list Z)
    (record0 record' : Record_) :
  le_ this' = le_ this ->
  schemas_ this' = schemas_ this ->
  common_id_ this' = common_id_ this ->
  (schema_version_ this <= schema_version_ this')%Z ->
  (codec_version_ this <= codec_version_ this')%Z ->
  (Decode this key value record0 = (Ok 0%Z, record') ->
   Decode this' key value record0 = (Ok 0%Z, record')) /\
  (Decode_projected this key value column_indexes record0 = (Ok 0%Z, record') ->
   Decode_projected this' key value column_indexes record0 =
   (Ok 0%Z, record')) /\
  (RecordDecoderV1_DecodeKey this key record0 = (Ok 0%Z, record') ->
   RecordDecoderV1_DecodeKey this' key record0 = (Ok 0%Z, record')).
Proof.
  intros Hle Hschemas Hid Hsv Hcv.
  assert (Hchecks : forall kb vb,
            header_checks this key value = (Ok true, (kb, vb)) ->
            header_checks this' key value = (Ok true, (kb, vb))).
  { intros kb vb (kb1 & kb2 & kb3 & tag & version & E1 & E2 & E3 & Htag & E4
                  & E5 & Hver)%header_checks_pass_inv.
    eapply header_checks_pass_intro; rewrite ?Hle, ?Hid; try done; lia. }
  split; [|split].
  - unfold Decode. rewrite !Decode_body_after_headers, !after_headers_run.
    destruct (header_checks this key value) as [[[|]|e0] [kb vb]] eqn:Hc;
      [|done..].
    rewrite (Hchecks _ _ eq_refl), Hschemas. done.
  - unfold Decode_projected.
    rewrite !Decode_projected_body_after_headers, !after_headers_run.
    destruct (header_checks this key value) as [[[|]|e0] [kb vb]] eqn:Hc;
      [|done..].
    rewrite (Hchecks _ _ eq_refl), Hschemas. done.
  - unfold RecordDecoderV1_DecodeKey.
    destruct (key_header_phase this key record0)
      as [(Hf & st & -> & Hr) | [(Hf & _ & e0 & st & -> & Hr)
         | (Hf & kb1 & kb2 & kb3 & kb4 & tag & E1 & E2 & E3 & Htag & E4
               & ->)]]; [done..|].
    destruct (key_header_phase this' key record0)
      as [(Hf' & _) | [(_ & Hnp & _)
         | (_ & kb1' & kb2' & kb3' & kb4' & tag' & E1' & E2' & E3' & _ & E4'
               & ->)]].
    + exfalso. rewrite <- Hle in E1. rewrite <- Hid in E2.
      unfold key_headers_fail, prefix_fails, reverse_tag_fails in Hf'.
      clash.
    + exfalso. apply Hnp. rewrite <- Hle in E1. rewrite <- Hid in E2.
      unfold key_headers_pass. exists kb1, kb2, kb3, kb4, tag.
      repeat split; try done; lia.
    + rewrite Hle in E1'. rewrite Hid in E2'.
      assert (kb1' = kb1) as -> by congruence.
      assert (kb2' = kb2) as -> by congruence.
      assert (kb3' = kb3) as -> by congruence.
      assert (kb4' = kb4) as -> by congruence.
      by rewrite Hschemas.
Qed.

(** *** Further properties: the projection of every column *)

Lemma all_present_omap (schemas : Schemas) :
  Forall is_Some schemas -> Some <$> omap id schemas = schemas.
Proof.
  induction 1 as [|bs rest [s ->] _ IH]; [done|].
  change (omap id (Some s :: rest)) with (s :: omap id rest).
  by rewrite fmap_cons, IH.
Qed.

Lemma all_present_lookup (schemas : Schemas) (i : nat) (s : BaseSchema) :
  Forall is_Some schemas ->
  omap id schemas !! i = Some s <-> schemas !! i = Some (Some s).
Proof.
  intros Hall. rewrite <- (all_present_omap schemas Hall) at 2.
  rewrite list_lookup_fmap. destruct (omap id schemas !! i); simpl;
    split; congruence.
Qed.

(** X11.  Let skipping a column move the cursor as decoding it does, let
    the schema list have no null entry and let every column's output index
    be its position in the list.  Then projecting every column, in schema
    order, is full decode: on an input that full decode decodes
    successfully, projected decode with the projection 0, 1, ..., N-1
    returns the very same record, whatever the two records held before. *)
Theorem projecting_every_column_gives_the_full_record
    (this : Decoder) (key value : list byte)
    (record0 recordP0 record_full : Record_) :
  skip_follows_decode ->
  Decode this key value record0 = (Ok 0%Z, record_full) ->
  Forall is_Some (schemas_ this) ->
  (forall (i : nat) s,
     schemas_ this !! i = Some (Some s) -> GetIndex s = Z.of_nat i) ->
  Decode_projected this key value
    (seqZ 0 (Z.of_nat (length (schemas_ this)))) recordP0 =
  (Ok 0%Z, record_full).
Proof.
  intros Hcontract (kb & vb & stF' & Hchecks & Hfull & <-)%Decode_success_inv
         Hall Hpos.
  set (N := length (schemas_ this)).
  set (column_indexes := seqZ 0 (Z.of_nat N)).
  assert (Hk : length column_indexes = N).
  { subst column_indexes. rewrite length_seqZ. lia. }
  assert (Hcount : present_count (schemas_ this) = Z.of_nat N).
  { unfold present_count. f_equal. subst N.
    rewrite <- (all_present_omap _ Hall) at 2.
    by rewrite length_fmap. }
  assert (Hnd : NoDup (GetIndex <$> omap id (schemas_ this))).
  { apply NoDup_alt. intros i j x Hi Hj.
    rewrite list_lookup_fmap in Hi, Hj.
    destruct (omap id (schemas_ this) !! i) as [si|] eqn:Hsi; [|done].
    destruct (omap id (schemas_ this) !! j) as [sj|] eqn:Hsj; [|done].
    apply all_present_lookup in Hsi, Hsj; [|done..].
    apply Hpos in Hsi, Hsj. simpl in Hi, Hj. simplify_eq. lia. }
  destruct (Decode_columns_frame _ _ _ Hfull) as [HlenF _].
  simpl in HlenF. rewrite length_resize in HlenF.
  unfold Decode_projected.
  rewrite Decode_projected_body_after_headers, after_headers_run, Hchecks.
  rewrite projected_tail_run. cbn [key_buf value_buf record].
  destruct (projected_simulates_full (Z.of_nat (length column_indexes))
              (col_index_mapping column_indexes) Hcontract
              (schemas_ this) 0 0 0
              {| key_buf := kb; value_buf := vb;
                 record := resize (length (schemas_ this)) any_empty
                             record0 |}
              {| key_buf := kb; value_buf := vb;
                 record := resize (length column_indexes) any_empty recordP0 |}
              stF' (col_index_mapping column_indexes))
    as (r & cnt & stP' & Hrun & Hlen & Hvals & _).
  - done.
  - done.
  - done.
  - done.
  - done.
  - rewrite col_index_mapping_length. lia.
  - apply col_index_mapping_increasing. apply NoDup_seqZ.
  - intros a Ha. apply col_index_mapping_elem in Ha as (i & Hi & Hslot).
    apply lookup_seqZ in Hi as [Hi Hlt]. split.
    + rewrite Hcount. lia.
    + simpl. rewrite length_resize. lia.
  - apply col_index_mapping_snd_NoDup.
  - done.
  - rewrite Hrun. simpl in Hlen. rewrite length_resize in Hlen.
    f_equal.
    { f_equal. apply projected_columns_status in Hrun as [->| ->]; done. }
    apply list_eq. intros i.
    destruct (decide (i < N)) as [Hi|Hi].
    + assert (Hci : column_indexes !! i = Some (Z.of_nat i)).
      { subst column_indexes. rewrite lookup_seqZ_lt by lia. done. }
      destruct (lookup_lt_is_Some_2 (schemas_ this) i Hi) as [bs Hbs].
      rewrite Forall_forall in Hall.
      destruct (Hall bs (list_elem_of_lookup_2 _ _ _ Hbs)) as [s ->].
      specialize (Hvals (Z.of_nat i, Z.of_nat i) s). simpl in Hvals.
      rewrite Z.sub_0_r, Nat2Z.id, (Hpos _ _ Hbs), Nat2Z.id in Hvals.
      apply Hvals.
      * apply col_index_mapping_elem. exists i. done.
      * apply all_present_lookup; [by apply Forall_forall|done].
    + rewrite !lookup_ge_None_2; [done|lia..].
Qed.

End Properties.

(** ** Concrete runs on the reference collaborators *)

Module Examples.
Import Reference Inputs.

Example full_decode_of_the_scenario :
  Decode decoder1 key1 value1 [] =
  (Ok 0%Z, [any_optional kInteger (Some 7%Z);
            any_optional kString (Some 6382179%Z)]).
Proof. vm_compute. reflexivity. Qed.

Example other_table_is_rejected :
  Decode decoder1 key_other_table value1 [] = (Ok (-1)%Z, []).
Proof. vm_compute. reflexivity. Qed.

Example key_only_decode_of_the_scenario :
  RecordDecoderV1_DecodeKey decoder1 key1 [] =
  (Ok 0%Z, [any_empty; any_optional kString (Some 6382179%Z)]).
Proof. vm_compute. reflexivity. Qed.

Example projected_decode_of_the_scenario :
  Decode_projected decoder1 key1 value1 [1; 0]%Z [] =
  (Ok 0%Z, [any_optional kString (Some 6382179%Z);
            any_optional kInteger (Some 7%Z)]).
Proof. vm_compute. reflexivity. Qed.

Example newer_schema_reads_older_bytes :
  Decode decoder2 key1 value1 [] =
  (Ok 0%Z, [any_optional kInteger (Some 7%Z);
            any_optional kString (Some 6382179%Z);
            absent kLong]).
Proof. vm_compute. reflexivity. Qed.

Example sorted_plan : col_index_mapping [3; 1; 2; 1]%Z =
                      [(1, 1); (1, 3); (2, 2); (3, 0)]%Z.
Proof. vm_compute. reflexivity. Qed.

(** The reference schema keeps the contract between skip and decode. *)
Lemma reference_skip_follows_decode :
  @skip_follows_decode Buf Z BaseSchema Schema_ops.
Proof.
  split; intros s b v b' Hdec; simpl in *; unfold skip; by rewrite Hdec.
Qed.

(** *** The theorems at these inputs *)

(** The key of another table: the prefix check fails and the decode
    is rejected with the record untouched. *)
Lemma rejected_for_other_table :
  prefix_fails decoder1 key_other_table /\
  Decode decoder1 key_other_table value1 [] = (Ok (-1)%Z, []).
Proof.
  assert (Hfail : prefix_fails decoder1 key_other_table).
  { exists {| bytes := key_other_table; forward_pos := 1; reverse_pos := 17;
              le := false |},
           43%Z,
           {| bytes := key_other_table; forward_pos := 9; reverse_pos := 17;
              le := false |}.
    repeat split; try (vm_compute; reflexivity). vm_compute. discriminate. }
  split; [exact Hfail|].
  apply (Decode_rejects_iff_a_header_check_fails
           decoder1 key_other_table value1 []).
  left. exact Hfail.
Defined.

(** The key of another table leaves the record as it was, at the three
    entry points. *)
Lemma rejected_record_untouched_for_other_table :
  Decode decoder1 key_other_table value1 [any_optional kBool None] =
    (Ok (-1)%Z, [any_optional kBool None]) /\
  Decode_projected decoder1 key_other_table value1 [1%Z]
                   [any_optional kBool None] =
    (Ok (-1)%Z, [any_optional kBool None]) /\
  RecordDecoderV1_DecodeKey decoder1 key_other_table
                            [any_optional kBool None] =
    (Ok (-1)%Z, [any_optional kBool None]).
Proof.
  assert (Hfail : prefix_fails decoder1 key_other_table).
  { exists {| bytes := key_other_table; forward_pos := 1; reverse_pos := 17;
              le := false |},
           43%Z,
           {| bytes := key_other_table; forward_pos := 9; reverse_pos := 17;
              le := false |}.
    repeat split; try (vm_compute; reflexivity). vm_compute. discriminate. }
  pose proof (rejected_decode_leaves_the_record_untouched
                decoder1 key_other_table value1 [1%Z]
                [any_optional kBool None]) as (Hfull & Hkey & _).
  split; [|split].
  - apply Hfull. left. exact Hfail.
  - apply Hfull. left. exact Hfail.
  - apply Hkey. left. exact Hfail.
Defined.

(** [decoder2] reads the bytes written before [col2] existed. *)
Lemma added_column_decodes_to_absent :
  Decode_columns ([Some col0; Some col1] ++ [Some col2])
                 (locals1 [any_empty; any_empty; any_empty]) =
  (Ok tt,
   {| key_buf := {| bytes := key1; forward_pos := 14; reverse_pos := 13;
                    le := false |};
      value_buf := {| bytes := value1; forward_pos := 9; reverse_pos := 8;
                      le := false |};
      record := [any_optional kInteger (Some 7%Z);
                 any_optional kString (Some 6382179%Z);
                 absent kLong] |}).
Proof.
  refine (proj2 missing_value_column_decodes_to_absent_marker
            [Some col0; Some col1] [Some col2]
            (locals1 [any_empty; any_empty; any_empty])
            {| key_buf := {| bytes := key1; forward_pos := 14;
                             reverse_pos := 13; le := false |};
               value_buf := {| bytes := value1; forward_pos := 9;
                               reverse_pos := 8; le := false |};
               record := [any_optional kInteger (Some 7%Z);
                          any_optional kString (Some 6382179%Z);
                          any_empty] |} _ _ _).
  - vm_compute. reflexivity.
  - vm_compute. reflexivity.
  - repeat constructor; simpl; lia.
Defined.

(** The key column of the scenario, with the value cursor at
    end-of-data. *)
Lemma key_column_decoded_with_value_cursor_at_end :
  IsEnd {| bytes := value1; forward_pos := 9; reverse_pos := 8; le := false |}
    = true /\
  DecodeOrSkip col1 key_buf_ref value_buf_ref record_ref 1 false
    {| key_buf := {| bytes := key1; forward_pos := 9; reverse_pos := 13;
                     le := false |};
       value_buf := {| bytes := value1; forward_pos := 9; reverse_pos := 8;
                       le := false |};
       record := [any_empty; any_empty] |} =
  (Ok tt,
   {| key_buf := {| bytes := key1; forward_pos := 14; reverse_pos := 13;
                    le := false |};
      value_buf := {| bytes := value1; forward_pos := 9; reverse_pos := 8;
                      le := false |};
      record := [any_empty; any_optional kString (Some 6382179%Z)] |}).
Proof.
  split; [vm_compute; reflexivity|].
  rewrite (proj1 (proj2 (@key_column_is_always_decoded_from_the_key_cursor
                           Buf Z BaseSchema Buf_ops Schema_ops))
             col1 1%Z _ (eq_refl : is_key col1 = true)).
  vm_compute. reflexivity.
Defined.

(** The slots of the scenario after key-only decode. *)
Lemma key_only_decode_slots :
  length [any_empty; any_optional kString (Some 6382179%Z)] =
    length (schemas_ decoder1) /\
  forall i : nat,
    match schemas_ decoder1 !! i with
    | Some (Some s) =>
        if IsKey s
        then exists v, [any_empty; any_optional kString (Some 6382179%Z)] !! i =
                       Some (any_optional (GetType s) v)
        else [any_empty; any_optional kString (Some 6382179%Z)] !! i =
             resize (length (schemas_ decoder1)) any_empty [] !! i
    | _ => [any_empty; any_optional kString (Some 6382179%Z)] !! i =
           resize (length (schemas_ decoder1)) any_empty [] !! i
    end.
Proof.
  apply (proj2 (proj2 (proj2 (DecodeKey_decodes_key_slots_at_their_positions
                                decoder1 key1 [])))).
  vm_compute. reflexivity.
Defined.

(** With the one request met at [col1], a further slot changes
    nothing. *)
Lemma pass_over_longer_list_stops :
  Decode_projected_columns 1 (col_index_mapping [1%Z])
    ([Some col0; Some col1] ++ [Some col2]) 0 0 0 (locals1 [any_empty]) =
  (Ok (Some 0%Z, (1, 2, 0)%Z),
   {| key_buf := {| bytes := key1; forward_pos := 14; reverse_pos := 13;
                    le := false |};
      value_buf := {| bytes := value1; forward_pos := 9; reverse_pos := 8;
                      le := false |};
      record := [any_optional kString (Some 6382179%Z)] |}).
Proof.
  apply (proj2 projected_decode_stops_once_every_request_is_met
           1%Z (col_index_mapping [1%Z]) [Some col0; Some col1] [Some col2]
           0%Z 0%Z 0%Z (locals1 [any_empty]) None).
  - vm_compute. reflexivity.
  - reflexivity.
  - discriminate.
Defined.

(** The dropped column in front of [decoder_with_gap] is invisible to
    the positions of a projection. *)
Lemma gap_is_invisible_to_positions :
  Decode_projected decoder_with_gap key1 value1 [1%Z] [] =
  Decode_projected (without_absent_slots decoder_with_gap) key1 value1 [1%Z] []
  /\
  Decode_projected decoder_with_gap key1 value1 [1%Z] [] =
  (Ok 0%Z, [any_optional kString (Some 6382179%Z)]).
Proof.
  split.
  - apply (proj2 (proj2 absent_slots_do_not_advance_the_position_counter)).
  - vm_compute. reflexivity.
Defined.

(** The scenario decoded twice, the second call reusing the record of the
    first. *)
Lemma scenario_decoded_twice :
  let w := {| decoder := decoder1; key_bytes := key1; value_bytes := value1;
              output := [] |} in
  (call_Decode (call_Decode w).2).1 = (call_Decode w).1 /\
  output (call_Decode (call_Decode w).2).2 = output (call_Decode w).2.
Proof.
  intros w.
  destruct (decoding_twice_gives_the_same_record w) as (H1 & H2 & _).
  split; [exact H1|exact H2].
Defined.

(** A duplicated position, a valid position ordered after it, and a
    position past the last column: only the first request is met. *)
Lemma duplicate_and_out_of_range_requests :
  headers_pass decoder2 key1 value1 /\
  Decode_projected decoder2 key1 value1 [1; 1; 2; 5]%Z [] =
    (Ok 0%Z, [any_optional kString (Some 6382179%Z); any_empty; any_empty;
              any_empty]) /\
  never_matched (schemas_ decoder2) [1; 1; 2; 5]%Z 2 /\
  [any_optional kString (Some 6382179%Z); any_empty; any_empty; any_empty]
    !! 1 = Some (@any_empty Z) /\
  [any_optional kString (Some 6382179%Z); any_empty; any_empty; any_empty]
    !! 2 = Some (@any_empty Z) /\
  [any_optional kString (Some 6382179%Z); any_empty; any_empty; any_empty]
    !! 3 = Some (@any_empty Z).
Proof.
  assert (Hpass : headers_pass decoder2 key1 value1).
  { exists {| bytes := key1; forward_pos := 1; reverse_pos := 17; le := false |},
           {| bytes := key1; forward_pos := 9; reverse_pos := 17; le := false |},
           {| bytes := key1; forward_pos := 9; reverse_pos := 16; le := false |},
           {| bytes := key1; forward_pos := 9; reverse_pos := 13; le := false |},
           1%Z, 1%Z,
           {| bytes := value1; forward_pos := 4; reverse_pos := 8;
              le := false |}.
    repeat split; try (vm_compute; reflexivity); vm_compute; discriminate. }
  assert (Hrun : Decode_projected decoder2 key1 value1 [1; 1; 2; 5]%Z [] =
                 (Ok 0%Z, [any_optional kString (Some 6382179%Z); any_empty;
                           any_empty; any_empty])).
  { vm_compute. reflexivity. }
  assert (Hstuck : never_matched (schemas_ decoder2) [1; 1; 2; 5]%Z 2).
  { exists 2%Z, 1, 1%Z. split; [reflexivity|]. split; [reflexivity|].
    split; [left; lia|]. right. exists 0. split; [lia|reflexivity]. }
  destruct (unmatched_requests_leave_their_slots_unwritten
              decoder2 key1 value1 [1; 1; 2; 5]%Z [] _ _ Hpass Hrun)
    as (_ & _ & Hnever & Hout & Hdup & _).
  split; [exact Hpass|]. split; [exact Hrun|]. split; [exact Hstuck|].
  split; [|split].
  - destruct (Hdup 0 1 1%Z ltac:(lia) eq_refl eq_refl) as [_ Hnew].
    apply Hnew. simpl. lia.
  - destruct (Hnever 2 Hstuck) as [_ Hnew]. apply Hnew. simpl. lia.
  - assert (Hrange : ~ (0 <= 5 < present_count (schemas_ decoder2))%Z)
      by (vm_compute; intros [_ Hlt]; discriminate).
    destruct (Hout 3 5%Z eq_refl Hrange) as [_ Hnew].
    apply Hnew. simpl. lia.
Defined.

(** The two columns of the scenario requested in reverse. *)
Lemma projection_of_the_scenario :
  exists record_proj,
    Decode_projected decoder1 key1 value1 [1; 0]%Z [] = (Ok 0%Z, record_proj) /\
    length record_proj = 2 /\
    record_proj !! 0 = Some (any_optional kString (Some 6382179%Z)) /\
    record_proj !! 1 = Some (any_optional kInteger (Some 7%Z)).
Proof.
  destruct (projected_decode_agrees_with_full_decode
              decoder1 key1 value1 [1; 0]%Z [] []
              [any_optional kInteger (Some 7%Z);
               any_optional kString (Some 6382179%Z)])
    as (record_proj & Hrun & Hlen & Hslots & _).
  - split; intros s b v b' Hdec; simpl in *; unfold skip; by rewrite Hdec.
  - vm_compute. reflexivity.
  - apply (bool_decide_unpack _). vm_compute. exact I.
  - repeat constructor; vm_compute; discriminate.
  - apply (bool_decide_unpack _). vm_compute. exact I.
  - exists record_proj. split; [exact Hrun|]. split; [exact Hlen|]. split.
    + apply (Hslots 0 1%Z col1); reflexivity.
    + apply (Hslots 1 0%Z col0); reflexivity.
Defined.

(** Positions read as schema-list positions fail on a schema list with a
    dropped column: position 1 of [decoder_with_gap] is the int32 column,
    which full decode puts into output slot 1, and projected decode answers
    the request for position 1 with the string column. *)
Lemma projection_by_list_position_fails_with_a_gap :
  @skip_follows_decode Buf Z BaseSchema Schema_ops /\
  NoDup [1%Z] /\
  Forall (fun c => 0 <= c < Z.of_nat (length (schemas_ decoder_with_gap)))%Z
         [1%Z] /\
  NoDup (GetIndex <$> omap id (schemas_ decoder_with_gap)) /\
  Decode decoder_with_gap key1 value1 [] =
    (Ok 0%Z, [any_empty; any_optional kInteger (Some 7%Z);
              any_optional kString (Some 6382179%Z)]) /\
  Decode_projected decoder_with_gap key1 value1 [1%Z] [] =
    (Ok 0%Z, [any_optional kString (Some 6382179%Z)]) /\
  ~ projection_by_list_position decoder_with_gap key1 value1 [1%Z].
Proof.
  split; [exact reference_skip_follows_decode|].
  split; [apply (bool_decide_unpack _); vm_compute; exact I|].
  split; [repeat constructor; vm_compute; discriminate|].
  split; [apply (bool_decide_unpack _); vm_compute; exact I|].
  split; [vm_compute; reflexivity|].
  split; [vm_compute; reflexivity|].
  intros Hprop.
  destruct (Hprop [] []
              [any_empty; any_optional kInteger (Some 7%Z);
               any_optional kString (Some 6382179%Z)])
    as (record_proj & Hrun & _ & Hslots).
  { vm_compute. reflexivity. }
  assert (Hproj : record_proj = [any_optional kString (Some 6382179%Z)]).
  { assert (Hrun' : Decode_projected decoder_with_gap key1 value1 [1%Z] [] =
                    (Ok 0%Z, [any_optional kString (Some 6382179%Z)]))
      by (vm_compute; reflexivity).
    congruence. }
  subst record_proj.
  specialize (Hslots 0 1%Z col0_at_1 eq_refl eq_refl).
  vm_compute in Hslots. discriminate Hslots.
Qed.

End Examples.

(** ** Further runs on the reference collaborators *)

Module MoreExamples.
Import Reference Inputs.

(** The value of the scenario with its last two bytes missing. *)
Definition value_truncated : list byte := map B [0;0;0;1; 1;0;0]%N.

(** [decoder1] with a later schema version and codec version. *)
Definition decoder1_newer : RecordDecoderV1 :=
  {| le_ := false; schema_version_ := 5; schemas_ := [Some col0; Some col1];
     common_id_ := 42; codec_version_ := 3 |}.

(** The scenario returns 0 and a record as long as the schema list. *)
Lemma scenario_status_and_length :
  (0%Z = (-1)%Z /\
   [any_optional kInteger (Some 7%Z); any_optional kString (Some 6382179%Z)] =
   [any_optional kBool None; any_optional kBool None; any_optional kBool None])
  \/
  (0%Z = 0%Z /\
   length [any_optional kInteger (Some 7%Z);
           any_optional kString (Some 6382179%Z)] =
   length (schemas_ decoder1)).
Proof.
  apply (proj1 (decode_statuses_and_record_lengths decoder1 key1 value1 []
                  [any_optional kBool None; any_optional kBool None;
                   any_optional kBool None]
                  [any_optional kInteger (Some 7%Z);
                   any_optional kString (Some 6382179%Z)] 0%Z)).
  vm_compute. reflexivity.
Defined.

(** The slots of the scenario are those the two schemas name. *)
Lemma scenario_named_slots :
  (0 <= GetIndex col1 < Z.of_nat (length (schemas_ decoder1)))%Z /\
  exists o,
    [any_optional kInteger (Some 7%Z); any_optional kString (Some 6382179%Z)]
      !! Z.to_nat (GetIndex col1) = Some (any_optional (GetType col1) o).
Proof.
  destruct (full_decode_writes_the_named_slots decoder1 key1 value1 []
              [any_optional kInteger (Some 7%Z);
               any_optional kString (Some 6382179%Z)])
    as (Hrange & _ & Htyped).
  { vm_compute. reflexivity. }
  assert (Hin : Some col1 ∈ schemas_ decoder1).
  { apply list_elem_of_lookup. exists 1. reflexivity. }
  split; [by apply Hrange|].
  apply Htyped; [|done]. apply (bool_decide_unpack _). vm_compute. exact I.
Defined.

(** Key-only decode of the scenario against its full decode. *)
Lemma scenario_key_only_agrees :
  exists record_key,
    RecordDecoderV1_DecodeKey decoder1 key1 [any_optional kBool None] =
      (Ok 0%Z, record_key) /\
    length record_key = 2 /\
    record_key !! 1 = Some (any_optional kString (Some 6382179%Z)).
Proof.
  destruct (key_only_decode_agrees_with_full_decode decoder1 key1 value1 []
              [any_optional kBool None]
              [any_optional kInteger (Some 7%Z);
               any_optional kString (Some 6382179%Z)])
    as (record_key & Hrun & Hlen & Hslots).
  - vm_compute. reflexivity.
  - apply (bool_decide_unpack _). vm_compute. exact I.
  - exists record_key. split; [exact Hrun|]. split; [exact Hlen|].
    apply (Hslots 1 col1); reflexivity.
Defined.

(** The empty projection of the scenario. *)
Lemma scenario_empty_projection :
  Decode_projected decoder1 key1 value1 [] [any_optional kBool None] =
  (Ok 0%Z, []).
Proof.
  apply empty_projection_decodes_nothing.
  exists {| bytes := key1; forward_pos := 1; reverse_pos := 17; le := false |},
         {| bytes := key1; forward_pos := 9; reverse_pos := 17; le := false |},
         {| bytes := key1; forward_pos := 9; reverse_pos := 16; le := false |},
         {| bytes := key1; forward_pos := 9; reverse_pos := 13; le := false |},
         1%Z, 1%Z,
         {| bytes := value1; forward_pos := 4; reverse_pos := 8; le := false |}.
  repeat split; try (vm_compute; reflexivity); vm_compute; discriminate.
Defined.

(** A projection with a repeated, a negative and a too large position. *)
Lemma scenario_odd_projection_succeeds :
  exists record_proj,
    Decode_projected decoder1 key1 value1 [1; 1; -3; 7]%Z [] =
      (Ok 0%Z, record_proj) /\
    length record_proj = 4.
Proof.
  apply (projected_decode_succeeds_where_full_decode_does decoder1 key1 value1
           [1; 1; -3; 7]%Z [] []
           [any_optional kInteger (Some 7%Z);
            any_optional kString (Some 6382179%Z)]).
  - split; intros s b v b' Hdec; simpl in *; unfold skip; by rewrite Hdec.
  - vm_compute. reflexivity.
Defined.

(** Two requests for position 1: the one for the lower output slot comes
    first in the plan. *)
Lemma plan_orders_equal_positions_by_slot :
  ((1, 1).1 < (1, 3).1 \/ ((1, 1).1 = (1, 3).1 /\ (1, 1).2 < (1, 3).2))%Z.
Proof.
  apply (proj2 (proj2 (proj2 (the_plan_is_the_sorted_list_of_requests
                                [3; 1; 2; 1]%Z))) 0 1 (1, 1)%Z (1, 3)%Z).
  - lia.
  - vm_compute. reflexivity.
  - vm_compute. reflexivity.
Defined.

(** The key of another table is rejected at every entry point. *)
Lemma other_table_rejected_everywhere :
  Decode decoder1 key_other_table value1 [] = (Ok (-1)%Z, []) /\
  Decode_projected decoder1 key_other_table value1 [0%Z] [] = (Ok (-1)%Z, []).
Proof.
  apply (proj2 (entry_points_reject_the_same_inputs decoder1 key_other_table
                  value1 [0%Z] [] [] [])).
  vm_compute. reflexivity.
Defined.

(** Skipping the key column of the scenario leaves the key cursor where
    decoding it does. *)
Lemma scenario_skip_key_column :
  DecodeOrSkip col1 key_buf_ref value_buf_ref record_ref 0 true
    (locals1 [any_empty; any_empty]) =
  (Ok tt,
   {| key_buf := {| bytes := key1; forward_pos := 14; reverse_pos := 13;
                    le := false |};
      value_buf := {| bytes := value1; forward_pos := 4; reverse_pos := 8;
                      le := false |};
      record := [any_empty; any_empty] |}).
Proof.
  refine (proj2 skipping_consumes_what_decoding_consumes _ col1 1%Z 0%Z
            (locals1 [any_empty; any_empty])
            {| key_buf := {| bytes := key1; forward_pos := 14;
                             reverse_pos := 13; le := false |};
               value_buf := {| bytes := value1; forward_pos := 4;
                               reverse_pos := 8; le := false |};
               record := [any_empty;
                          any_optional kString (Some 6382179%Z)] |} _).
  - split; intros s b v b' Hdec; simpl in *; unfold skip; by rewrite Hdec.
  - vm_compute. reflexivity.
Defined.

(** A truncated value makes the first column throw: the record comes back
    resized. *)
Lemma truncated_value_leaves_a_resized_record :
  [@any_empty Z; any_empty] = [] \/
  (headers_pass decoder1 key1 value_truncated /\
   length [@any_empty Z; any_empty] = length (schemas_ decoder1)).
Proof.
  apply (proj1 (record_after_an_exception decoder1 key1 value_truncated []
                  [] [@any_empty Z; any_empty] out_of_range)).
  vm_compute. reflexivity.
Defined.

(** The scenario under a decoder with later versions. *)
Lemma scenario_under_newer_decoder :
  Decode decoder1_newer key1 value1 [] =
  (Ok 0%Z, [any_optional kInteger (Some 7%Z);
            any_optional kString (Some 6382179%Z)]).
Proof.
  apply (proj1 (a_more_permissive_decoder_decodes_the_same
                  decoder1 decoder1_newer key1 value1 [] []
                  [any_optional kInteger (Some 7%Z);
                   any_optional kString (Some 6382179%Z)]
                  eq_refl eq_refl eq_refl ltac:(simpl; lia)
                  ltac:(simpl; lia))).
  vm_compute. reflexivity.
Defined.

(** The scenario projected on both columns in schema order. *)
Lemma scenario_projected_on_every_column :
  Decode_projected decoder1 key1 value1
    (seqZ 0 (Z.of_nat (length (schemas_ decoder1))))
    [any_optional kBool None] =
  (Ok 0%Z, [any_optional kInteger (Some 7%Z);
            any_optional kString (Some 6382179%Z)]).
Proof.
  apply (projecting_every_column_gives_the_full_record decoder1 key1 value1
           []).
  - split; intros s b v b' Hdec; simpl in *; unfold skip; by rewrite Hdec.
  - vm_compute. reflexivity.
  - repeat constructor; eexists; reflexivity.
  - intros [|[|i]] s Hs; simpl in Hs; [by injection Hs as <-..|done].
Defined.

End MoreExamples.
